(** * gridex: a per-directory index of GeoTIFF footprints

    A shallow embedding of [cgi-bin/gridex.py] and the properties of its
    indexing and query paths.

    Conventions of the embedding.
    - A Python [float] is a finite binary64 number, taken as the rational
      ([Q]) it denotes; the result of an arithmetic operation is the exact
      result rounded by [fl], an operation of the runtime.  Infinities, NaN
      and overflow are not modelled: the geotransform that GDAL reports is
      taken to hold finite numbers, and no result leaves the range.
    - A text file is the [string] of its characters.
    - A raised Python exception is the [Raise] outcome of [result].
    - The libraries the script calls (GDAL/OGR/OSR, [csv], [os]) are modelled
      by their documented behaviour; what they compute from raster bytes,
      projection text and geometries is taken as data or as an interface. *)

From Stdlib Require Import QArith Lqa Ascii String DecimalString.
From stdpp Require Import base strings list gmap.

Close Scope Q_scope.
Open Scope Z_scope.

(** ** Python runtime *)

Module Py.

(** The exceptions that the modelled calls can raise. *)
Inductive exn : Set :=
| RuntimeError        (* GDAL/OGR error in exception mode *)
| FileNotFoundError   (* open() of a missing file *)
| IsADirectoryError   (* open() of a directory *)
| AttributeError      (* attribute access on None *)
| KeyError            (* missing dict key *)
| TypeError           (* None passed where a str is required *)
| ValueError          (* None passed where a geometry is required *)
| csv_Error.          (* _csv.Error *)

Inductive result (A : Type) : Type :=
| Ok (a : A)
| Raise (e : exn).
Arguments Ok {A} a.
Arguments Raise {A} e.

#[global] Instance result_ret : MRet result := @Ok.
#[global] Instance result_bind : MBind result := fun A B k r =>
  match r with
  | Ok a => k a
  | Raise e => Raise e
  end.

(** A value that is either a [str] or [None]. *)
Inductive value : Set :=
| Str (s : string)
| None_.

(** [s.endswith(suffix)] *)
Fixpoint startswith (s prefix : string) : bool :=
  match prefix, s with
  | EmptyString, _ => true
  | String _ _, EmptyString => false
  | String p prefix', String c s' => Ascii.eqb c p && startswith s' prefix'
  end.

Definition endswith (s suffix : string) : bool :=
  startswith (String.rev s) (String.rev suffix).

(** [str(n)] for an [int]. *)
Definition str_int (n : Z) : string := NilZero.string_of_int (Z.to_int n).

(** [sep.join(parts)] *)
Fixpoint join (sep : string) (parts : list string) : string :=
  match parts with
  | [] => EmptyString
  | [p] => p
  | p :: rest => p +:+ sep +:+ join sep rest
  end.

(** The binary64 arithmetic of the runtime.  [fl x] is the float nearest to
    the exact result [x] of an operation on floats; [float_str x] is [str(x)]
    for a float, the shortest decimal string that reads back as [x].  Both
    are primitives of the runtime; what a property needs of them it states
    as a hypothesis. *)
Class Float := mkFloat {
  fl : Q -> Q;
  float_str : Q -> string
}.

End Py.

Import Py.

Definition CR : ascii := "013"%char.
Definition LF : ascii := "010"%char.
Definition DQUOTE : ascii := "034"%char.

(** ** The [csv] module, for the dialect the script uses

    [csv.writer(f, delimiter=';')] and [csv.DictReader(f, delimiter=';')]:
    the [excel] dialect with another delimiter, so the double quote as
    quotechar, doubled quotes, line terminator CR LF, minimal quoting, no
    escape character, not strict.  The reader is the state machine of
    [Modules/_csv.c] with its limit on the size of a field; the states that
    only an escape character reaches are left out. *)

Module csv.

Definition delimiter : ascii := ";"%char.
Definition quotechar : ascii := DQUOTE.
Definition lineterminator : string := String CR (String LF EmptyString).

(** *** Writer *)

(** A character that forces the field to be quoted. *)
Definition special (c : ascii) : bool :=
  Ascii.eqb c delimiter || Ascii.eqb c quotechar ||
  Ascii.eqb c CR || Ascii.eqb c LF.

Fixpoint any_special (field : string) : bool :=
  match field with
  | EmptyString => false
  | String c rest => special c || any_special rest
  end.

(** Copy the field, writing each quote character twice. *)
Fixpoint doubled (field : string) : string :=
  match field with
  | EmptyString => EmptyString
  | String c rest =>
      if Ascii.eqb c quotechar
      then String quotechar (String quotechar (doubled rest))
      else String c (doubled rest)
  end.

Definition join_append (field : string) : string :=
  if any_special field
  then String quotechar (doubled field) +:+ String quotechar EmptyString
  else field.

(** [writer.writerow(fields)] on fields already converted with [str]: the
    text appended to the file.  A record that consists of one empty field is
    written as a pair of quotes. *)
Definition writerow (fields : list string) : string :=
  match fields with
  | [EmptyString] => String quotechar (String quotechar EmptyString) +:+ lineterminator
  | _ => Py.join (String delimiter EmptyString) (map join_append fields) +:+ lineterminator
  end.

(** *** Reader *)

Inductive ParserState : Set :=
| START_RECORD
| START_FIELD
| IN_FIELD
| IN_QUOTED_FIELD
| QUOTE_IN_QUOTED_FIELD
| EAT_CRNL.

#[global] Instance ParserState_eq_dec : EqDecision ParserState.
Proof. solve_decision. Defined.

Record Reader : Set := mkReader {
  state : ParserState;
  fields : list string;   (* the fields of the record saved so far *)
  field : string          (* the characters of the field being read *)
}.

(** [parse_reset] *)
Definition parse_reset : Reader :=
  {| state := START_RECORD; fields := []; field := EmptyString |}.

(** [csv.field_size_limit()]: the script never sets it, so it is the
    default of the module. *)
Definition field_limit : Z := 131072.

(** [parse_add_char]: a field that holds [field_limit] characters takes no
    more. *)
Definition parse_add_char (r : Reader) (c : ascii) : result Reader :=
  if field_limit <=? Z.of_nat (String.length (field r))
  then Raise csv_Error
  else Ok {| state := state r; fields := fields r;
             field := field r +:+ String c EmptyString |}.

Definition parse_save_field (r : Reader) : Reader :=
  {| state := state r; fields := fields r ++ [field r]; field := EmptyString |}.

Definition set_state (s : ParserState) (r : Reader) : Reader :=
  {| state := s; fields := fields r; field := field r |}.

(** What [parse_process_char] is fed: a character of the line, or the
    end-of-line mark that follows the last character of each line. *)
Inductive input : Set :=
| Char (c : ascii)
| EOL.

Definition is_newline (c : ascii) : bool := Ascii.eqb c LF || Ascii.eqb c CR.

Definition start_field (r : Reader) (i : input) : result Reader :=
  match i with
  | EOL => Ok (set_state START_RECORD (parse_save_field r))
  | Char c =>
      if is_newline c then Ok (set_state EAT_CRNL (parse_save_field r))
      else if Ascii.eqb c quotechar then Ok (set_state IN_QUOTED_FIELD r)
      else if Ascii.eqb c delimiter then Ok (parse_save_field r)
      else r' ← parse_add_char r c; Ok (set_state IN_FIELD r')
  end.

Definition parse_process_char (r : Reader) (i : input) : result Reader :=
  match state r with
  | START_RECORD =>
      match i with
      | EOL => Ok r
      | Char c =>
          if is_newline c then Ok (set_state EAT_CRNL r)
          else start_field (set_state START_FIELD r) i
      end
  | START_FIELD => start_field r i
  | IN_FIELD =>
      match i with
      | EOL => Ok (set_state START_RECORD (parse_save_field r))
      | Char c =>
          if is_newline c then Ok (set_state EAT_CRNL (parse_save_field r))
          else if Ascii.eqb c delimiter
          then Ok (set_state START_FIELD (parse_save_field r))
          else parse_add_char r c
      end
  | IN_QUOTED_FIELD =>
      match i with
      | EOL => Ok r
      | Char c =>
          if Ascii.eqb c quotechar then Ok (set_state QUOTE_IN_QUOTED_FIELD r)
          else parse_add_char r c
      end
  | QUOTE_IN_QUOTED_FIELD =>
      match i with
      | EOL => Ok (set_state START_RECORD (parse_save_field r))
      | Char c =>
          if Ascii.eqb c quotechar
          then r' ← parse_add_char r c; Ok (set_state IN_QUOTED_FIELD r')
          else if Ascii.eqb c delimiter
          then Ok (set_state START_FIELD (parse_save_field r))
          else if is_newline c
          then Ok (set_state EAT_CRNL (parse_save_field r))
          else r' ← parse_add_char r c; Ok (set_state IN_FIELD r')
      end
  | EAT_CRNL =>
      match i with
      | EOL => Ok (set_state START_RECORD r)
      | Char c => if is_newline c then Ok r else Raise csv_Error
      end
  end.

(** Feed the characters of one line, then the end-of-line mark. *)
Fixpoint parse_line (r : Reader) (line : string) : result Reader :=
  match line with
  | EmptyString => parse_process_char r EOL
  | String c rest => r' ← parse_process_char r (Char c); parse_line r' rest
  end.

(** Everything that iterating the reader yields: the records, and the
    exception that ends the iteration early, if one is raised.  A record is
    complete when a line leaves the parser in [START_RECORD]; at the end of
    the input a record cut short inside a quoted field is still yielded. *)
Fixpoint records (r : Reader) (lines : list string)
  : list (list string) * option exn :=
  match lines with
  | [] =>
      if bool_decide (state r = IN_QUOTED_FIELD) || negb (String.eqb (field r) EmptyString)
      then ([fields (parse_save_field r)], None)
      else ([], None)
  | line :: rest =>
      match parse_line r line with
      | Raise e => ([], Some e)
      | Ok r' =>
          if bool_decide (state r' = START_RECORD)
          then let '(recs, e) := records parse_reset rest in (fields r' :: recs, e)
          else records r' rest
      end
  end.

Definition reader (lines : list string) : list (list string) * option exn :=
  records parse_reset lines.

(** *** DictReader *)

(** [dict(zip(fieldnames, row))], then [None] under every field name the row
    is too short for; a later duplicate of a key replaces the earlier one.
    The extra fields of a row that is too long go under the key [None],
    which no lookup by name sees. *)
Definition row_dict (fieldnames row : list string) : gmap string Py.value :=
  let d := foldl (fun d kv => <[kv.1 := Str kv.2]> d) ∅ (zip fieldnames row) in
  foldl (fun d k => <[k := None_]> d) d (drop (length row) fieldnames).

Definition is_empty_row (row : list string) : bool :=
  match row with [] => true | _ => false end.

(** The rows that iterating [csv.DictReader(lines, delimiter=';')] yields:
    the first record gives the field names, empty records after it are
    skipped. *)
Definition DictReader (lines : list string)
  : list (gmap string Py.value) * option exn :=
  let '(recs, e) := reader lines in
  match recs with
  | [] => ([], e)
  | fieldnames :: rows =>
      (map (row_dict fieldnames)
         (List.filter (fun row => negb (is_empty_row row)) rows), e)
  end.

End csv.

(** ** Text files and the directory tree *)

Module fs.

(** What the script reads of an opened raster dataset. *)
Record Dataset : Set := mkDataset {
  GetGeoTransform : Q * Q * Q * Q * Q * Q;
  RasterXSize : Z;
  RasterYSize : Z;
  GetProjection : string
}.

(** What a file is to the script: its size in bytes, its text, and the raster
    GDAL finds in it, if it is one GDAL can open. *)
Record file : Set := mkFile {
  st_size : Z;
  text : string;
  raster : option Dataset
}.

#[warnings="-register-all"]
Inductive node : Set :=
| File (f : file)
| Dir (entries : list (string * node)).

(** A directory is its entries, in the order in which the operating system
    lists them. *)
Abbreviation directory := (list (string * node)).

Fixpoint lookup (name : string) (d : directory) : option node :=
  match d with
  | [] => None
  | (n, x) :: rest => if String.eqb n name then Some x else lookup name rest
  end.

(** [os.path.exists(os.path.join(d, name))] *)
Definition exists_ (name : string) (d : directory) : bool :=
  match lookup name d with Some _ => true | None => false end.

(** [os.listdir(d)] *)
Definition listdir (d : directory) : list string := map fst d.

(** The [filenames] of an [os.walk] triple: the entries that are not
    directories. *)
Fixpoint filenames (d : directory) : list string :=
  match d with
  | [] => []
  | (n, File _) :: rest => n :: filenames rest
  | (_, Dir _) :: rest => filenames rest
  end.

(** The file that closing a freshly written text file leaves behind. *)
Definition text_file (s : string) : file :=
  {| st_size := Z.of_nat (String.length s); text := s; raster := None |}.

(** Replace the entry [name], or add it when there is none. *)
Fixpoint put (name : string) (x : node) (d : directory) : directory :=
  match d with
  | [] => [(name, x)]
  | (n, y) :: rest =>
      if String.eqb n name then (n, x) :: rest else (n, y) :: put name x rest
  end.

(** The subdirectory reached from [n] by the names of [path]. *)
Fixpoint subdir (path : list string) (n : node) : option directory :=
  match n with
  | File _ => None
  | Dir d =>
      match path with
      | [] => Some d
      | name :: path' =>
          match lookup name d with
          | Some x => subdir path' x
          | None => None
          end
      end
  end.

(** Reading in text mode with the default [newline=None]: CR LF and a lone
    CR both arrive as LF.  [after_cr] tells that the previous character was
    a CR, for which the LF has been delivered already. *)
Fixpoint universal_newlines (after_cr : bool) (s : string) : string :=
  match s with
  | EmptyString => EmptyString
  | String c rest =>
      if Ascii.eqb c CR then String LF (universal_newlines true rest)
      else if Ascii.eqb c LF
      then (if after_cr then universal_newlines false rest
            else String LF (universal_newlines false rest))
      else String c (universal_newlines false rest)
  end.

(** The lines that iterating a text file yields, each with its LF. *)
Fixpoint splitlines (line s : string) : list string :=
  match s with
  | EmptyString =>
      match line with EmptyString => [] | _ => [line] end
  | String c rest =>
      if Ascii.eqb c LF
      then (line +:+ String c EmptyString) :: splitlines EmptyString rest
      else splitlines (line +:+ String c EmptyString) rest
  end.

(** Iterating [open(path, mode='r')]. *)
Definition readlines (f : file) : list string :=
  splitlines EmptyString (universal_newlines false (text f)).

End fs.

Import fs.

(** ** GDAL, OSR and OGR as the script sees them *)

Module gdal.

(** The process-wide error mode of the bindings. *)
Record config : Set := mkConfig { bUseExceptions : bool }.

Definition initial : config := {| bUseExceptions := false |}.

(** [gdal.UseExceptions()] *)
Definition UseExceptions (c : config) : config := {| bUseExceptions := true |}.

(** [gdal.Open(path)]: the dataset; when the path is not a raster GDAL can
    open, [None] in the return-code mode and a [RuntimeError] in the
    exception mode. *)
Definition Open (c : config) (x : node) : result (option Dataset) :=
  match x with
  | File {| raster := Some dataset |} => Ok (Some dataset)
  | _ => if bUseExceptions c then Raise RuntimeError else Ok None
  end.

End gdal.

Module osr.

(** What the script asks of [osr.SpatialReference(wkt=projection)]. *)
Record SpatialReference : Set := mkSpatialReference {
  IsProjected : bool;
  IsGeographic : bool;
  GetAttrValue_AUTHORITY_1 : option string   (* GetAttrValue("AUTHORITY", 1) *)
}.

Class Resolver := from_wkt : string -> SpatialReference.

End osr.

Module ogr.

(** How a geometry constructor of the bindings ends: with a geometry, with
    [None], or with an exception.  Which of the last two reports an input
    that is not a geometry depends on the error mode of [ogr] and on whether
    the library records an error for that input. *)
Inductive outcome (G : Type) : Type :=
| Geometry_ (g : G)
| Null
| Failure.
Arguments Geometry_ {G} g.
Arguments Null {G}.
Arguments Failure {G}.

Class Engine := mkEngine {
  Geometry : Type;
  CreateGeometryFromJson : string -> outcome Geometry;
  CreateGeometryFromWkt : string -> outcome Geometry;
  Intersects : Geometry -> Geometry -> bool
}.

(** The Python value a constructor call evaluates to. *)
Definition returned {G} (o : outcome G) : result (option G) :=
  match o with
  | Geometry_ g => Ok (Some g)
  | Null => Ok None
  | Failure => Raise RuntimeError
  end.

End ogr.

(** ** The script *)

Definition INDEX_FILE : string := "_index.csv".

(** The state of the GDAL bindings once the module is imported (line 43). *)
Definition imported : gdal.config := gdal.UseExceptions gdal.initial.

Definition Qltb (x y : Q) : bool := negb (Qle_bool y x).

(** [mbr_overlap(polygon_mbr, file_mbr)]; each box is
    [(minX, maxX, minY, maxY)]. *)
Definition mbr_overlap (polygon_mbr file_mbr : Q * Q * Q * Q) : bool :=
  let '(p_min_x, p_max_x, p_min_y, p_max_y) := polygon_mbr in
  let '(f_min_x, f_max_x, f_min_y, f_max_y) := file_mbr in
  negb (Qltb p_max_x f_min_x || Qltb f_max_x p_min_x ||
        Qltb p_max_y f_min_y || Qltb f_max_y p_min_y).

(** [os.path.getsize]; a directory never gets this far, [gdal.Open] having
    failed on it. *)
Definition getsize (x : node) : Z :=
  match x with
  | File f => st_size f
  | Dir _ => 0
  end.

Definition header : list string :=
  ["ID"; "FileName"; "FileSize"; "x1"; "y1"; "x2"; "y2"; "SRID"; "Geometry4326"].

(** The list comprehension of line 178, on the [filenames] of a walked
    directory. *)
Definition tif_files (d : directory) : list string :=
  List.filter (fun f => endswith f ".tif") (filenames d).

Section Script.

Context {floats : Py.Float} {resolver : osr.Resolver} {engine : ogr.Engine}.

(** The bounding box of lines 73-81, as [(min_x, min_y, max_x, max_y)].
    The raster sizes are C [int]s, which convert to floats exactly; the
    product and the sum are each rounded. *)
Definition bounding_box (dataset : Dataset) : Q * Q * Q * Q :=
  let '(g0, g1, _, g3, _, g5) := GetGeoTransform dataset in
  let width := RasterXSize dataset in
  let height := RasterYSize dataset in
  let min_x := g0 in
  let max_x := fl (min_x + fl (inject_Z width * g1))%Q in
  let min_y := fl (g3 + fl (inject_Z height * g5))%Q in
  let max_y := g3 in
  (min_x, min_y, max_x, max_y).

Definition get_epsg_code (dataset : Dataset) : string :=
  let projection := GetProjection dataset in
  if String.eqb projection EmptyString then "Unknown"
  else
    let spatial_ref := osr.from_wkt projection in
    if osr.IsProjected spatial_ref || osr.IsGeographic spatial_ref
    then match osr.GetAttrValue_AUTHORITY_1 spatial_ref with
         | Some epsg_code =>
             if String.eqb epsg_code EmptyString then "Unknown" else epsg_code
         | None => "Unknown"
         end
    else "Unknown".

(** The f-string of line 90. *)
Definition wkt_polygon (min_x min_y max_x max_y : Q) : string :=
  "POLYGON ((" +:+ float_str min_x +:+ " " +:+ float_str min_y +:+ ", "
  +:+ float_str max_x +:+ " " +:+ float_str min_y +:+ ", "
  +:+ float_str max_x +:+ " " +:+ float_str max_y +:+ ", "
  +:+ float_str min_x +:+ " " +:+ float_str max_y +:+ ", "
  +:+ float_str min_x +:+ " " +:+ float_str min_y +:+ "))".

(** The row of line 93, each field converted the way the writer does. *)
Definition index_row (file_id : Z) (filename : string) (x : node)
    (dataset : Dataset) : list string :=
  let '(min_x, min_y, max_x, max_y) := bounding_box dataset in
  let file_size := getsize x in
  let srid := get_epsg_code dataset in
  [str_int file_id; filename; str_int file_size;
   float_str min_x; float_str min_y; float_str max_x; float_str max_y;
   srid; wkt_polygon min_x min_y max_x max_y].

(** The loop of lines 66-99 over the listing: the rows handed to the writer,
    and how the loop ends. *)
Fixpoint index_files (g : gdal.config) (file_id : Z) (listing : directory)
  : list (list string) * result unit :=
  match listing with
  | [] => ([], Ok ())
  | (filename, x) :: rest =>
      if endswith filename ".tif"
      then match gdal.Open g x with
           | Raise e => ([], Raise e)
           | Ok None => index_files g file_id rest
           | Ok (Some dataset) =>
               let '(rows, r) := index_files g (file_id + 1) rest in
               (index_row file_id filename x dataset :: rows, r)
           end
      else index_files g file_id rest
  end.

(** The text of an index file with these rows under the header. *)
Definition index_text (rows : list (list string)) : string :=
  foldr (fun row s => csv.writerow row +:+ s) EmptyString (header :: rows).

(** [create_index(directory)]: the directory afterwards, and how the call
    ends.  The index file is opened for writing first, so it is truncated
    and listed with the rest; when the loop raises, the [with] block closes
    the file with the rows written so far. *)
Definition create_index (g : gdal.config) (d : directory)
  : directory * result unit :=
  match fs.lookup INDEX_FILE d with
  | Some (Dir _) => (d, Raise IsADirectoryError)
  | _ =>
      let opened := put INDEX_FILE (File (text_file EmptyString)) d in
      let '(rows, r) := index_files g 0 opened in
      (put INDEX_FILE (File (text_file (index_text rows))) opened, r)
  end.

(** [row[key]] *)
Definition getitem (row : gmap string Py.value) (key : string) : result Py.value :=
  match row !! key with
  | Some v => Ok v
  | None => Raise KeyError
  end.

(** [ogr.CreateGeometryFromWkt(v)] *)
Definition geometry_from_wkt (v : Py.value) : result (option ogr.Geometry) :=
  match v with
  | Str wkt => ogr.returned (ogr.CreateGeometryFromWkt wkt)
  | None_ => Raise TypeError
  end.

(** [query_geom.Intersects(file_geom)] *)
Definition intersects (query_geom file_geom : option ogr.Geometry) : result bool :=
  match query_geom, file_geom with
  | None, _ => Raise AttributeError
  | Some _, None => Raise ValueError
  | Some q, Some f => Ok (ogr.Intersects q f)
  end.

(** The loop of lines 142-151. *)
Fixpoint scan (query_geom : option ogr.Geometry)
    (rows : list (gmap string Py.value)) (overlapping_files : list Py.value)
  : result (list Py.value) :=
  match rows with
  | [] => Ok overlapping_files
  | row :: rest =>
      file_geometry_wkt ← getitem row "Geometry4326";
      file_geom ← geometry_from_wkt file_geometry_wkt;
      hit ← intersects query_geom file_geom;
      if (hit : bool)
      then name ← getitem row "FileName";
           scan query_geom rest (overlapping_files ++ [name])
      else scan query_geom rest overlapping_files
  end.

(** [query_index(directory, query_geometry)] *)
Definition query_index (d : directory) (query_geometry : string)
  : result (list Py.value) :=
  query_geom ← ogr.returned (ogr.CreateGeometryFromJson query_geometry);
  match fs.lookup INDEX_FILE d with
  | None => Raise FileNotFoundError
  | Some (Dir _) => Raise IsADirectoryError
  | Some (File index_file) =>
      let '(rows, stopped) := csv.DictReader (readlines index_file) in
      overlapping_files ← scan query_geom rows [];
      match stopped with
      | Some e => Raise e
      | None => Ok overlapping_files
      end
  end.

(** The directories below one directory, visited in listing order; the walk
    ends at the first exception. *)
Section Walk.

Variable visit : node -> node * result unit.

Fixpoint walk_entries (d : directory) : directory * result unit :=
  match d with
  | [] => ([], Ok ())
  | (name, x) :: rest =>
      match x with
      | File _ =>
          let '(rest', r) := walk_entries rest in ((name, x) :: rest', r)
      | Dir _ =>
          let '(x', r) := visit x in
          match r with
          | Raise e => ((name, x') :: rest, Raise e)
          | Ok _ =>
              let '(rest', r') := walk_entries rest in ((name, x') :: rest', r')
          end
      end
  end.

End Walk.

(** The entries [walked], with the index file that [indexed] holds. *)
Definition with_index (indexed walked : directory) : directory :=
  match fs.lookup INDEX_FILE indexed with
  | Some x => put INDEX_FILE x walked
  | None => walked
  end.

(** [index_directories_recursively(root_directory)]: the tree afterwards, and
    how the call ends.  [os.walk] lists a directory before it yields it, so
    the subdirectories walked are those of that listing, and the index file
    the body creates is not looked at again. *)
Fixpoint index_directories_recursively (g : gdal.config) (root : node)
  : node * result unit :=
  match root with
  | File _ => (root, Ok ())
  | Dir d =>
      let descend (indexed : directory) :=
        let '(walked, r) := walk_entries (index_directories_recursively g) d in
        (Dir (with_index indexed walked), r) in
      match tif_files d with
      | [] => descend []
      | _ :: _ =>
          if exists_ INDEX_FILE d then descend []
          else
            let '(indexed, r) := create_index g d in
            match r with
            | Raise e => (Dir indexed, Raise e)
            | Ok _ => descend indexed
            end
      end
  end.

End Script.

(** ** Example data

    A runtime, a resolver and a geometry engine small enough to compute
    with, and the directories of the scenarios. *)

Module Example.

(** The floats of the examples are integers of moderate size, such as
    [10.0]: their sums and products are floats, so rounding leaves them as
    they are, and [str] writes the integer and [.0]. *)
Definition integral_floats : Py.Float :=
  {| Py.fl := fun x => x;
     Py.float_str := fun x => str_int (Qnum x / Zpos (Qden x)) +:+ ".0" |}.

(** Every projection names EPSG:4326. *)
Definition wgs84 : osr.Resolver :=
  fun _ => {| osr.IsProjected := false; osr.IsGeographic := true;
              osr.GetAttrValue_AUTHORITY_1 := Some "4326" |}.

Definition quoted (s : string) : string :=
  String DQUOTE s +:+ String DQUOTE EmptyString.

(** The GeoJSON text of a point. *)
Definition geojson_point (x y : string) : string :=
  "{" +:+ quoted "type" +:+ ": " +:+ quoted "Point" +:+ ", "
  +:+ quoted "coordinates" +:+ ": [" +:+ x +:+ ", " +:+ y +:+ "]}".

(** An engine on boxes [(minX, maxX, minY, maxY)] that knows three query
    points and the footprints of two rasters.  The empty JSON object is
    JSON but no geometry and gives [None]; other text is an error. *)
Definition boxes : ogr.Engine :=
  {| ogr.Geometry := Q * Q * Q * Q;
     ogr.CreateGeometryFromJson := fun s =>
       if String.eqb s (geojson_point "5" "5") then ogr.Geometry_ (5, 5, 5, 5)%Q
       else if String.eqb s (geojson_point "25" "25") then ogr.Geometry_ (25, 25, 25, 25)%Q
       else if String.eqb s (geojson_point "15" "15") then ogr.Geometry_ (15, 15, 15, 15)%Q
       else if String.eqb s "{}" then ogr.Null
       else ogr.Failure;
     ogr.CreateGeometryFromWkt := fun s =>
       if String.eqb s "POLYGON ((0.0 0.0, 10.0 0.0, 10.0 10.0, 0.0 10.0, 0.0 0.0))"
       then ogr.Geometry_ (0, 10, 0, 10)%Q
       else if String.eqb s "POLYGON ((20.0 20.0, 30.0 20.0, 30.0 30.0, 20.0 30.0, 20.0 20.0))"
       then ogr.Geometry_ (20, 30, 20, 30)%Q
       else ogr.Failure;
     ogr.Intersects := mbr_overlap |}.

(** A raster with unit pixels whose top left corner is [(x, y)]. *)
Definition north_up (x y : Q) (width height : Z) : Dataset :=
  {| GetGeoTransform := (x, 1, 0, y, 0, -1)%Q;
     RasterXSize := width; RasterYSize := height; GetProjection := "GEOGCS" |}.

(** A raster without georeferencing: GDAL reports the default geotransform
    [(0, 1, 0, 0, 0, 1)], whose pixel height is positive, and no
    projection. *)
Definition ungeoreferenced (width height : Z) : Dataset :=
  {| GetGeoTransform := (0, 1, 0, 0, 0, 1)%Q;
     RasterXSize := width; RasterYSize := height; GetProjection := EmptyString |}.

Definition tif (dataset : Dataset) : node :=
  File {| st_size := 1000; text := EmptyString; raster := Some dataset |}.

(** A file that is no raster. *)
Definition junk : node := File (text_file "junk").

(** Scenario A: rasters with boxes [0,0,10,10] and [20,20,30,30]. *)
Definition A : directory :=
  [("r1.tif", tif (north_up 0 10 10 10)); ("r2.tif", tif (north_up 20 30 10 10))].

(** Scenario B: one file GDAL cannot open and one raster, in both listing
    orders. *)
Definition B : directory :=
  [("bad.tif", junk); ("good.tif", tif (north_up 0 10 10 10))].

Definition B' : directory :=
  [("good.tif", tif (north_up 0 10 10 10)); ("bad.tif", junk)].

(** A directory with no raster at all. *)
Definition notes : directory := [("README", File (text_file "notes"))].

(** A raster whose name holds a carriage return. *)
Definition cr_name : string := String "a" (String CR "b.tif").

Definition C : directory := [(cr_name, tif (north_up 0 10 10 10))].

(** An index left by an earlier run. *)
Definition old_index : file := text_file "ID;FileName".

(** Scenario X/Y: [X] has two rasters and no index, [Y] one raster and an
    index; [docs] has no raster. *)
Definition tree : node :=
  Dir [("X", Dir A);
       ("Y", Dir [("r.tif", tif (north_up 0 10 10 10)); (INDEX_FILE, File old_index)]);
       ("docs", Dir notes)].

(** A directory with one raster without georeferencing. *)
Definition S : directory := [("s.tif", tif (ungeoreferenced 10 10))].

(** An index with the two columns that a query reads, for the rasters of
    scenario A. *)
Definition two_columns : file :=
  text_file "FileName;Geometry4326
r1.tif;POLYGON ((0.0 0.0, 10.0 0.0, 10.0 10.0, 0.0 10.0, 0.0 0.0))
r2.tif;POLYGON ((20.0 20.0, 30.0 20.0, 30.0 30.0, 20.0 30.0, 20.0 20.0))
".

(** The rows that [create_index] writes for scenario A, and its index. *)
Definition rows_A : list (list string) :=
  [["0"; "r1.tif"; "1000"; "0.0"; "0.0"; "10.0"; "10.0"; "4326";
    "POLYGON ((0.0 0.0, 10.0 0.0, 10.0 10.0, 0.0 10.0, 0.0 0.0))"];
   ["1"; "r2.tif"; "1000"; "20.0"; "20.0"; "30.0"; "30.0"; "4326";
    "POLYGON ((20.0 20.0, 30.0 20.0, 30.0 30.0, 20.0 30.0, 20.0 20.0))"]].

Definition index_A : file := text_file (index_text rows_A).

(** The row that [create_index] writes for [C], and its index. *)
Definition rows_C : list (list string) :=
  [["0"; cr_name; "1000"; "0.0"; "0.0"; "10.0"; "10.0"; "4326";
    "POLYGON ((0.0 0.0, 10.0 0.0, 10.0 10.0, 0.0 10.0, 0.0 0.0))"]].

Definition index_C : file := text_file (index_text rows_C).

(** The name under which the raster of [C] is read back. *)
Definition lf_name : string := String "a" (String LF "b.tif").

(** A text of [n] digits. *)
Definition digits (n : nat) : string := Nat.iter n (String "9") EmptyString.

(** A code one character longer than the reader takes in a field. *)
Definition oversized : string := digits (Z.to_nat (csv.field_limit + 1)).

(** The first row of scenario A with another text for its SRID, and the
    index that holds it. *)
Definition row_with_srid (srid : string) : list string :=
  ["0"; "r1.tif"; "1000"; "0.0"; "0.0"; "10.0"; "10.0"; srid;
   "POLYGON ((0.0 0.0, 10.0 0.0, 10.0 10.0, 0.0 10.0, 0.0 0.0))"].

Definition index_with_srid (srid : string) : directory :=
  [(INDEX_FILE, File (text_file (index_text [row_with_srid srid])))].

End Example.

(** ** Vocabulary of the properties *)

(** A box [(minX, maxX, minY, maxY)] whose corners are in order. *)
Definition ordered (r : Q * Q * Q * Q) : Prop :=
  let '(min_x, max_x, min_y, max_y) := r in
  (min_x <= max_x)%Q /\ (min_y <= max_y)%Q.

(** A candidate of the listing that GDAL cannot open: a name ending in
    [.tif] on something that is no raster. *)
Definition unopenable (entry : string * node) : Prop :=
  endswith entry.1 ".tif" = true
  /\ match entry.2 with
     | File {| raster := Some _ |} => False
     | _ => True
     end.

Section FloatVocabulary.

Context {floats : Py.Float}.

(** A number that is a float: rounding leaves it as it is. *)
Definition is_float (x : Q) : Prop := (fl x == x)%Q.

(** Rounding to nearest keeps the order of the exact results. *)
Definition monotone_rounding : Prop :=
  forall x y : Q, (x <= y)%Q -> (fl x <= fl y)%Q.

(** The origin that the geotransform gives the raster is a pair of
    floats. *)
Definition float_origin (dataset : Dataset) : Prop :=
  let '(g0, _, _, g3, _, _) := GetGeoTransform dataset in
  is_float g0 /\ is_float g3.

End FloatVocabulary.

(** The two coefficients of the geotransform that scale the pixels. *)
Definition pixel_width (dataset : Dataset) : Q :=
  let '(_, g1, _, _, _, _) := GetGeoTransform dataset in g1.

Definition pixel_height (dataset : Dataset) : Q :=
  let '(_, _, _, _, _, g5) := GetGeoTransform dataset in g5.

Section RowVocabulary.

Context {floats : Py.Float}.

(** A coordinate pair of a WKT ring, and the WKT of a polygon with one
    ring. *)
Definition wkt_pair (p : Q * Q) : string :=
  float_str p.1 +:+ " " +:+ float_str p.2.

Definition wkt_ring (ring : list (Q * Q)) : string :=
  "POLYGON ((" +:+ Py.join ", " (map wkt_pair ring) +:+ "))".

(** The corners of a box in the order of the footprint. *)
Definition corners (box : Q * Q * Q * Q) : list (Q * Q) :=
  let '(min_x, min_y, max_x, max_y) := box in
  [(min_x, min_y); (max_x, min_y); (max_x, max_y); (min_x, max_y); (min_x, min_y)].

(** A row whose rectangle fields and footprint are those of one box. *)
Definition footprint_row (row : list string) : Prop :=
  exists (id filename size srid : string) (min_x min_y max_x max_y : Q),
    row = [id; filename; size;
           float_str min_x; float_str min_y; float_str max_x; float_str max_y;
           srid; wkt_ring (corners (min_x, min_y, max_x, max_y))].

End RowVocabulary.

Section QueryVocabulary.

Context {engine : ogr.Engine}.

(** The row holds the record: a file name, and a footprint that the engine
    reads as the geometry. *)
Definition record_of (row : gmap string Py.value) (rec : string * ogr.Geometry) : Prop :=
  row !! "FileName" = Some (Str rec.1)
  /\ exists wkt : string,
       row !! "Geometry4326" = Some (Str wkt)
       /\ ogr.CreateGeometryFromWkt wkt = ogr.Geometry_ rec.2.

(** The file names of the records that the query geometry intersects, in the
    order of the records. *)
Definition matching (q : ogr.Geometry) (recs : list (string * ogr.Geometry))
  : list Py.value :=
  map (fun rec => Str rec.1) (List.filter (fun rec => ogr.Intersects q rec.2) recs).

(** The written row holds the record: its second field is the file name,
    its last a footprint that the engine reads as the geometry. *)
Definition written_record (row : list string) (rec : string * ogr.Geometry) : Prop :=
  row !! 1%nat = Some rec.1
  /\ exists wkt : string,
       row !! 8%nat = Some wkt
       /\ ogr.CreateGeometryFromWkt wkt = ogr.Geometry_ rec.2.

End QueryVocabulary.

(** The rasters of a listing: the entries with a name ending in [.tif] that
    GDAL opens, each with its dataset. *)
Fixpoint rasters (listing : directory) : list (string * node * Dataset) :=
  match listing with
  | [] => []
  | (filename, x) :: rest =>
      match endswith filename ".tif", x with
      | true, File {| raster := Some dataset |} =>
          (filename, x, dataset) :: rasters rest
      | _, _ => rasters rest
      end
  end.

Section WrittenRows.

Context {floats : Py.Float} {resolver : osr.Resolver}.

(** The rows of these rasters, numbered from [file_id]. *)
Fixpoint numbered (file_id : Z) (found : list (string * node * Dataset))
  : list (list string) :=
  match found with
  | [] => []
  | (filename, x, dataset) :: rest =>
      index_row file_id filename x dataset :: numbered (file_id + 1) rest
  end.

(** The rows that [create_index g d] hands to the writer. *)
Definition written (g : gdal.config) (d : directory) : list (list string) :=
  (index_files g 0 (put INDEX_FILE (File (text_file EmptyString)) d)).1.

End WrittenRows.

(** Two rows with the same [FileName] and [Geometry4326] entries. *)
Definition agree (row1 row2 : gmap string Py.value) : Prop :=
  row1 !! "FileName" = row2 !! "FileName"
  /\ row1 !! "Geometry4326" = row2 !! "Geometry4326".

(** A text without carriage return. *)
Fixpoint no_cr (s : string) : bool :=
  match s with
  | EmptyString => true
  | String c rest => negb (Ascii.eqb c CR) && no_cr rest
  end.

(** A field that the reader takes: it holds no more characters than the
    limit of the [csv] module. *)
Definition fits (f : string) : bool :=
  Z.of_nat (String.length f) <=? csv.field_limit.

(** [csv.DictReader] reads the file to its end: iterating it raises
    nothing.  A file with a field larger than [csv.field_limit] is not read
    to its end. *)
Definition read_to_end (index_file : file) : Prop :=
  (csv.DictReader (readlines index_file)).2 = None.

(** The index of [d'] is what the index of [d] was: absent when it was
    absent, the same file when it was a file. *)
Definition same_index (d d' : directory) : Prop :=
  match fs.lookup INDEX_FILE d with
  | None => fs.lookup INDEX_FILE d' = None
  | Some (File f) => fs.lookup INDEX_FILE d' = Some (File f)
  | Some (Dir _) => True
  end.

(** *** The reader, character by character

    The same parser fed from the text itself rather than from its lines:
    the end-of-line mark follows each LF, and the last line when it has no
    LF.  It is used to reason about reading without splitting into lines. *)

Fixpoint parse_chars (r : csv.Reader) (s : string) : result csv.Reader :=
  match s with
  | EmptyString => Ok r
  | String c rest => r' ← csv.parse_process_char r (csv.Char c); parse_chars r' rest
  end.

(** What the reader does when a line is complete. *)
Definition end_of_line (r : csv.Reader)
    (continue : csv.Reader -> list (list string) * option exn)
  : list (list string) * option exn :=
  match csv.parse_process_char r csv.EOL with
  | Raise e => ([], Some e)
  | Ok r' =>
      if bool_decide (csv.state r' = csv.START_RECORD)
      then let '(recs, e) := continue csv.parse_reset in (csv.fields r' :: recs, e)
      else continue r'
  end.

(** [partial] tells that the current line has characters already. *)
Fixpoint stream (r : csv.Reader) (partial : bool) (s : string)
  : list (list string) * option exn :=
  match s with
  | EmptyString =>
      if partial then end_of_line r (fun r' => csv.records r' [])
      else csv.records r []
  | String c rest =>
      match csv.parse_process_char r (csv.Char c) with
      | Raise e => ([], Some e)
      | Ok r1 =>
          if Ascii.eqb c LF then end_of_line r1 (fun r2 => stream r2 false rest)
          else stream r1 true rest
      end
  end.

(** One written line without its terminator. *)
Definition written_line (row : list string) : string :=
  match row with
  | [EmptyString] => String csv.quotechar (String csv.quotechar EmptyString)
  | _ => Py.join (String csv.delimiter EmptyString) (map csv.join_append row)
  end.

(** The text that universal newlines make of written rows. *)
Definition delivered_text (rows : list (list string)) : string :=
  foldr (fun row s => written_line row +:+ String LF s) EmptyString rows.

(** A tree the walk has nothing to do for: every directory of it has no
    [.tif] file or has an index entry. *)
Fixpoint settled (x : node) : Prop :=
  match x with
  | File _ => True
  | Dir d =>
      (tif_files d = [] \/ exists_ INDEX_FILE d = true)
      /\ (fix all (entries : directory) : Prop :=
            match entries with
            | [] => True
            | (_, y) :: rest => settled y /\ all rest
            end) d
  end.

(** Every entry of the directory is settled. *)
Definition all_settled (d : directory) : Prop :=
  Forall (fun entry => settled entry.2) d.


(** The point [(x, y)] lies in the closed box [(minX, maxX, minY, maxY)]. *)
Definition inside (r : Q * Q * Q * Q) (x y : Q) : Prop :=
  let '(min_x, max_x, min_y, max_y) := r in
  (min_x <= x)%Q /\ (x <= max_x)%Q /\ (min_y <= y)%Q /\ (y <= max_y)%Q.

(** A tree in which GDAL opens every candidate of every directory. *)
Fixpoint all_open (x : node) : Prop :=
  match x with
  | File _ => True
  | Dir d =>
      Forall (fun entry => ~ unopenable entry) d
      /\ (fix all (entries : directory) : Prop :=
            match entries with
            | [] => True
            | (_, y) :: rest => all_open y /\ all rest
            end) d
  end.
(** * Properties *)

(** ** Rectangle overlap *)

Lemma Qltb_lt (x y : Q) : Qltb x y = true <-> (x < y)%Q.
Proof.
  unfold Qltb. rewrite negb_true_iff, <- not_true_iff_false, Qle_bool_iff.
  split; [apply Qnot_le_lt | apply Qlt_not_le].
Qed.

Lemma Qltb_ge (x y : Q) : Qltb x y = false <-> (y <= x)%Q.
Proof.
  unfold Qltb. rewrite negb_false_iff. apply Qle_bool_iff.
Qed.

(** C3. For boxes [a] and [b] with ordered corners, [mbr_overlap a b] is
    true exactly when none of [a.maxX < b.minX], [a.minX > b.maxX],
    [a.maxY < b.minY], [a.minY > b.maxY] holds.  So boxes that share an edge
    ([a.maxX = b.minX] with the [y] ranges meeting) or only a corner
    ([a.maxX = b.minX] and [a.maxY = b.minY]) overlap: the intervals are
    closed.  The function is a total function to [bool] with no state. *)
Theorem mbr_overlap_closed_intervals (a b : Q * Q * Q * Q) :
  ordered a -> ordered b ->
  let '(a_min_x, a_max_x, a_min_y, a_max_y) := a in
  let '(b_min_x, b_max_x, b_min_y, b_max_y) := b in
  (mbr_overlap a b = true <->
   ~ (a_max_x < b_min_x \/ a_min_x > b_max_x \/
      a_max_y < b_min_y \/ a_min_y > b_max_y)%Q)
  /\ (a_max_x == b_min_x -> a_min_y <= b_max_y -> b_min_y <= a_max_y ->
      mbr_overlap a b = true)%Q
  /\ (a_max_x == b_min_x -> a_max_y == b_min_y -> mbr_overlap a b = true)%Q.
Proof.
  destruct a as [[[a_min_x a_max_x] a_min_y] a_max_y].
  destruct b as [[[b_min_x b_max_x] b_min_y] b_max_y].
  intros [Hax Hay] [Hbx Hby].
  assert (Hiff : mbr_overlap (a_min_x, a_max_x, a_min_y, a_max_y)
                   (b_min_x, b_max_x, b_min_y, b_max_y) = true <->
                 ~ (a_max_x < b_min_x \/ a_min_x > b_max_x \/
                    a_max_y < b_min_y \/ a_min_y > b_max_y)%Q).
  { unfold mbr_overlap. rewrite negb_true_iff.
    rewrite !orb_false_iff, !Qltb_ge. split.
    - intros [[[H1 H2] H3] H4] [H | [H | [H | H]]]; lra.
    - intros H. repeat split; apply Qnot_lt_le; intros Hlt; apply H; auto. }
  split; [exact Hiff |].
  split; intros; apply Hiff; intros [H' | [H' | [H' | H']]]; lra.
Qed.

(** ** The bounding box *)

(** C2, as the code has it.  The corners of the box are stored as
    computed, and their order follows the signs of the products that the
    code adds to the origin, each pair on its own: [min_x <= max_x] when
    [width * pixel_width] is not negative and [max_x <= min_x] when it is
    not positive; [min_y <= max_y] when [height * pixel_height] is not
    positive and [max_y <= min_y] when it is not negative.  A raster of the
    north-up convention has an ordered box; nothing reorders the corners of
    a raster of another orientation.  The numbers are finite floats, and
    each product and sum is rounded. *)
Theorem bounding_box_order {floats : Py.Float} (dataset : Dataset) :
  monotone_rounding -> is_float 0 -> float_origin dataset ->
  let '(min_x, min_y, max_x, max_y) := bounding_box dataset in
  let across := (inject_Z (RasterXSize dataset) * pixel_width dataset)%Q in
  let down := (inject_Z (RasterYSize dataset) * pixel_height dataset)%Q in
  ((0 <= across -> min_x <= max_x) /\ (across <= 0 -> max_x <= min_x)
   /\ (down <= 0 -> min_y <= max_y) /\ (0 <= down -> max_y <= min_y))%Q.
Proof.
  unfold monotone_rounding, is_float, float_origin, bounding_box,
    pixel_width, pixel_height.
  destruct (GetGeoTransform dataset) as [[[[[g0 g1] g2] g3] g4] g5].
  intros Hfl H0 [Hg0 Hg3]. cbv zeta.
  set (across := (inject_Z (RasterXSize dataset) * g1)%Q).
  set (down := (inject_Z (RasterYSize dataset) * g5)%Q).
  clearbody across down. unfold is_float in Hg0, Hg3.
  repeat split; intros Hsign.
  - pose proof (Hfl _ _ Hsign) as Hp.
    assert (Hs : (g0 <= g0 + fl across)%Q) by lra.
    pose proof (Hfl _ _ Hs). lra.
  - pose proof (Hfl _ _ Hsign) as Hp.
    assert (Hs : (g0 + fl across <= g0)%Q) by lra.
    pose proof (Hfl _ _ Hs). lra.
  - pose proof (Hfl _ _ Hsign) as Hp.
    assert (Hs : (g3 + fl down <= g3)%Q) by lra.
    pose proof (Hfl _ _ Hs). lra.
  - pose proof (Hfl _ _ Hsign) as Hp.
    assert (Hs : (g3 <= g3 + fl down)%Q) by lra.
    pose proof (Hfl _ _ Hs). lra.
Qed.

(** ** Index rows *)

Lemma append_nil_l (s : string) : EmptyString +:+ s = s.
Proof. reflexivity. Qed.

Lemma append_cons (c : ascii) (s1 s2 : string) :
  String c s1 +:+ s2 = String c (s1 +:+ s2).
Proof. reflexivity. Qed.

Lemma append_nil_r (s : string) : s +:+ EmptyString = s.
Proof. induction s as [| c s IH]; [reflexivity | by rewrite append_cons, IH]. Qed.

Lemma append_assoc (s1 s2 s3 : string) : (s1 +:+ s2) +:+ s3 = s1 +:+ s2 +:+ s3.
Proof.
  induction s1 as [| c s1 IH]; [reflexivity |].
  by rewrite !append_cons, IH.
Qed.

Lemma lookup_put_eq (name : string) (x : node) (d : directory) :
  fs.lookup name (put name x d) = Some x.
Proof.
  induction d as [| [n y] rest IH]; simpl.
  - by rewrite String.eqb_refl.
  - destruct (String.eqb n name) eqn:E; simpl; by rewrite E.
Qed.

Lemma lookup_put_ne (name name' : string) (x : node) (d : directory) :
  name <> name' -> fs.lookup name' (put name x d) = fs.lookup name' d.
Proof.
  intros Hne. induction d as [| [n y] rest IH]; simpl.
  - apply String.eqb_neq in Hne. by rewrite Hne.
  - destruct (String.eqb n name) eqn:E; simpl.
    + apply String.eqb_eq in E. subst n.
      apply String.eqb_neq in Hne. by rewrite Hne.
    + destruct (String.eqb n name'); [reflexivity | exact IH].
Qed.

Lemma put_put (name : string) (x y : node) (d : directory) :
  put name y (put name x d) = put name y d.
Proof.
  induction d as [| [n z] rest IH]; simpl.
  - by rewrite String.eqb_refl.
  - destruct (String.eqb n name) eqn:E; simpl; rewrite E; [reflexivity | by rewrite IH].
Qed.

Section Rows.

Context {floats : Py.Float} {resolver : osr.Resolver}.

Lemma wkt_polygon_ring (min_x min_y max_x max_y : Q) :
  wkt_polygon min_x min_y max_x max_y
  = wkt_ring (corners (min_x, min_y, max_x, max_y)).
Proof.
  unfold wkt_polygon, wkt_ring, corners, wkt_pair. simpl.
  by rewrite !append_assoc.
Qed.

Lemma index_row_footprint (file_id : Z) (filename : string) (x : node)
    (dataset : Dataset) :
  footprint_row (index_row file_id filename x dataset).
Proof.
  unfold index_row.
  destruct (bounding_box dataset) as [[[min_x min_y] max_x] max_y].
  exists (str_int file_id), filename, (str_int (getsize x)), (get_epsg_code dataset),
    min_x, min_y, max_x, max_y.
  by rewrite wkt_polygon_ring.
Qed.

Lemma index_files_footprint (g : gdal.config) (listing : directory) (file_id : Z) :
  Forall footprint_row (index_files g file_id listing).1.
Proof.
  revert file_id. induction listing as [| [filename x] rest IH]; intros file_id; simpl.
  - constructor.
  - destruct (endswith filename ".tif"); [| apply IH].
    destruct (gdal.Open g x) as [[dataset |] | e]; simpl.
    + specialize (IH (file_id + 1)).
      destruct (index_files g (file_id + 1) rest) as [rows r]. simpl in *.
      constructor; [apply index_row_footprint | exact IH].
    + apply IH.
    + constructor.
Qed.

(** C6. In every record that [create_index] writes, the [Geometry4326]
    field is the WKT of a polygon with one ring of five coordinate pairs,
    the last equal to the first, which are the corners
    [(minX,minY), (maxX,minY), (maxX,maxY), (minX,maxY), (minX,minY)] of the
    rectangle in the fields [x1], [y1], [x2], [y2] of that record. *)
Theorem create_index_footprint (g : gdal.config) (d d' : directory) (r : result unit) :
  create_index g d = (d', r) ->
  r <> Raise IsADirectoryError ->
  exists rows : list (list string),
    fs.lookup INDEX_FILE d' = Some (File (text_file (index_text rows)))
    /\ Forall footprint_row rows
    /\ forall box : Q * Q * Q * Q,
         length (corners box) = 5%nat /\ head (corners box) = last (corners box).
Proof.
  unfold create_index. intros Hrun Hr.
  pose proof (index_files_footprint g
                (put INDEX_FILE (File (text_file EmptyString)) d) 0) as Hrows.
  destruct (index_files g 0 (put INDEX_FILE (File (text_file EmptyString)) d))
    as [rows r0].
  assert (Hgoal : forall d0, (put INDEX_FILE (File (text_file (index_text rows)))
             (put INDEX_FILE (File (text_file EmptyString)) d), r0) = (d0, r) ->
     exists rows0, fs.lookup INDEX_FILE d0 = Some (File (text_file (index_text rows0)))
       /\ Forall footprint_row rows0
       /\ forall box : Q * Q * Q * Q,
            length (corners box) = 5%nat /\ head (corners box) = last (corners box)).
  { intros d0 [= <- _]. exists rows. split; [apply lookup_put_eq |].
    split; [exact Hrows |]. by intros [[[? ?] ?] ?]. }
  destruct (fs.lookup INDEX_FILE d) as [[f | sub] |].
  - by apply Hgoal.
  - injection Hrun as _ <-. congruence.
  - by apply Hgoal.
Qed.

(** In the return-code mode of GDAL the loop skips every candidate that
    does not open and numbers the rasters from [file_id], in listing
    order. *)
Lemma index_files_return_codes (listing : directory) (file_id : Z) :
  index_files gdal.initial file_id listing
  = (numbered file_id (rasters listing), Ok ()).
Proof.
  revert file_id. induction listing as [| [filename x] rest IH]; intros file_id;
    simpl; [done |].
  destruct (endswith filename ".tif"); [| apply IH].
  destruct x as [[size text [dataset |]] | sub]; simpl; try apply IH.
  by rewrite IH.
Qed.

(** In either mode, a listing whose candidates all open is indexed in
    full. *)
Lemma index_files_all_open (g : gdal.config) (listing : directory) (file_id : Z) :
  Forall (fun entry => ~ unopenable entry) listing ->
  index_files g file_id listing = (numbered file_id (rasters listing), Ok ()).
Proof.
  intros Hopen. revert file_id.
  induction Hopen as [| [filename x] rest Hx _ IH]; intros file_id; simpl; [done |].
  destruct (endswith filename ".tif") eqn:Htif; [| apply IH].
  destruct x as [[size text [dataset |]] | sub]; simpl.
  - by rewrite IH.
  - exfalso. apply Hx. by split.
  - exfalso. apply Hx. by split.
Qed.

(** With GDAL exceptions enabled no candidate is ever skipped: a candidate
    that does not open ends the loop, and [create_index], with a
    [RuntimeError]. *)
Lemma index_files_unopenable (listing : directory) (file_id : Z) :
  Exists unopenable listing ->
  (index_files imported file_id listing).2 = Raise RuntimeError.
Proof.
  intros Hbad. revert file_id.
  induction listing as [| [filename x] rest IH]; intros file_id;
    [by apply Exists_nil in Hbad |].
  apply Exists_cons in Hbad as [[Htif Hx] | Hrest]; simpl in *.
  - rewrite Htif. by destruct x as [[size text [dataset |]] | sub].
  - destruct (endswith filename ".tif"); [| by apply IH].
    destruct x as [[size text [dataset |]] | sub]; simpl; try done.
    specialize (IH Hrest (file_id + 1)).
    by destruct (index_files imported (file_id + 1) rest).
Qed.

Lemma create_index_unopenable (d : directory) :
  Exists unopenable d ->
  exists e, (create_index imported d).2 = Raise e.
Proof.
  intros Hbad. unfold create_index.
  assert (Hopened : Exists unopenable (put INDEX_FILE (File (text_file EmptyString)) d)).
  { clear -Hbad.
    induction Hbad as [[n y] rest [Htif Hy] | [n y] rest Hrest IH]; simpl in *.
    - destruct (String.eqb n INDEX_FILE) eqn:Hn.
      + apply String.eqb_eq in Hn. subst n. by vm_compute in Htif.
      + by left.
    - destruct (String.eqb n INDEX_FILE); by right. }
  pose proof (index_files_unopenable _ 0 Hopened) as Hraise.
  destruct (index_files imported 0 _) as [rows r]. simpl in Hraise. subst r.
  destruct (fs.lookup INDEX_FILE d) as [[f | sub] |]; simpl; eauto.
Qed.

End Rows.
(** ** Querying *)

Section Query.

Context {engine : ogr.Engine}.

Lemma scan_records (q : ogr.Geometry) (rows : list (gmap string Py.value))
    (recs : list (string * ogr.Geometry)) :
  Forall2 record_of rows recs ->
  forall overlapping_files,
    scan (Some q) rows overlapping_files = Ok (overlapping_files ++ matching q recs).
Proof.
  induction 1 as [| row rec rows recs (Hname & wkt & Hwkt & Hgeom) _ IH];
    intros acc; simpl.
  - by rewrite app_nil_r.
  - unfold getitem. rewrite Hwkt. simpl. rewrite Hgeom. simpl.
    unfold matching. simpl.
    destruct (ogr.Intersects q rec.2); simpl.
    + rewrite Hname. simpl. rewrite IH. unfold matching.
      by rewrite <- app_assoc.
    + apply IH.
Qed.

(** What a query returns on an index that is read to its end and whose
    rows hold records. *)
Lemma query_index_records (d : directory) (query_geometry : string)
    (index_file : file) (q : ogr.Geometry) (recs : list (string * ogr.Geometry)) :
  fs.lookup INDEX_FILE d = Some (File index_file) ->
  read_to_end index_file ->
  ogr.CreateGeometryFromJson query_geometry = ogr.Geometry_ q ->
  Forall2 record_of (csv.DictReader (readlines index_file)).1 recs ->
  query_index d query_geometry = Ok (matching q recs).
Proof.
  unfold read_to_end. intros Hfile Hstop Hq Hrecs.
  unfold query_index. rewrite Hq, Hfile. simpl.
  destruct (csv.DictReader (readlines index_file)) as [rows stopped].
  simpl in *. subst stopped.
  by rewrite (scan_records q rows recs Hrecs).
Qed.

(** What a query returns on an index that is not read to its end: the
    error of the first row that the loop cannot handle, or else the error
    of the reader. *)
Lemma query_index_stopped (d : directory) (query_geometry : string)
    (index_file : file) (e : exn) :
  fs.lookup INDEX_FILE d = Some (File index_file) ->
  (csv.DictReader (readlines index_file)).2 = Some e ->
  exists e', query_index d query_geometry = Raise e'.
Proof.
  intros Hfile Hstop. unfold query_index. rewrite Hfile.
  destruct (ogr.returned (ogr.CreateGeometryFromJson query_geometry))
    as [query_geom | e0]; simpl; [| eauto].
  destruct (csv.DictReader (readlines index_file)) as [rows stopped].
  simpl in Hstop. subst stopped.
  destruct (scan query_geom rows []) as [names | e0]; simpl; eauto.
Qed.

(** What a query returns on an index of which the reader yields no row
    before it raises. *)
Lemma query_index_no_row (d : directory) (query_geometry : string)
    (index_file : file) (e : exn) :
  fs.lookup INDEX_FILE d = Some (File index_file) ->
  ogr.CreateGeometryFromJson query_geometry <> ogr.Failure ->
  csv.DictReader (readlines index_file) = ([], Some e) ->
  query_index d query_geometry = Raise e.
Proof.
  intros Hfile Hq Hread. unfold query_index. rewrite Hfile, Hread.
  by destruct (ogr.CreateGeometryFromJson query_geometry).
Qed.

(** C4, as the code has it.  When the directory has an index file that the
    reader reads to its end and the query geometry parses, [query_index]
    returns the [FileName] of exactly those records of the index whose
    footprint intersects the query geometry, once for each such record and
    in the order of the rows.  An index with a field larger than the limit
    of the reader is not read to its end, and the query raises. *)
Theorem query_index_exact (d : directory) (query_geometry : string)
    (index_file : file) (q : ogr.Geometry) (recs : list (string * ogr.Geometry)) :
  fs.lookup INDEX_FILE d = Some (File index_file) ->
  read_to_end index_file ->
  ogr.CreateGeometryFromJson query_geometry = ogr.Geometry_ q ->
  Forall2 record_of (csv.DictReader (readlines index_file)).1 recs ->
  query_index d query_geometry = Ok (matching q recs).
Proof.
  intros Hfile Hstop Hq Hrecs.
  exact (query_index_records d query_geometry index_file q recs
           Hfile Hstop Hq Hrecs).
Qed.

Lemma scan_without_geometry (row : gmap string Py.value)
    (rows : list (gmap string Py.value)) (overlapping_files : list Py.value) :
  exists e, scan None (row :: rows) overlapping_files = Raise e.
Proof.
  simpl. unfold getitem.
  destruct (row !! "Geometry4326") as [v |]; simpl; [| eauto].
  destruct (geometry_from_wkt v) as [file_geom | e]; simpl; eauto.
Qed.

(** C5, as the code has it.  [query_index] parses the query geometry before
    it opens the index.  Without an index file it raises: the parser's
    error when the parser raises, [FileNotFoundError] otherwise.  With a
    query geometry that does not parse it raises when the parser raises,
    and also when the parser returns [None] and the index has a data row;
    a result list is produced in none of these cases.  When the parser
    returns [None] and the index has no data row, the loop has nothing to
    do: the result is the empty list when the reader reads the index to its
    end, and the error of the reader otherwise. *)
Theorem query_index_failures (d : directory) (query_geometry : string) :
  (fs.lookup INDEX_FILE d = None ->
   query_index d query_geometry =
     Raise (match ogr.CreateGeometryFromJson query_geometry with
            | ogr.Failure => RuntimeError
            | _ => FileNotFoundError
            end))
  /\ (ogr.CreateGeometryFromJson query_geometry = ogr.Failure ->
      query_index d query_geometry = Raise RuntimeError)
  /\ (forall index_file row rows,
        ogr.CreateGeometryFromJson query_geometry = ogr.Null ->
        fs.lookup INDEX_FILE d = Some (File index_file) ->
        (csv.DictReader (readlines index_file)).1 = row :: rows ->
        exists e, query_index d query_geometry = Raise e)
  /\ (forall index_file,
        ogr.CreateGeometryFromJson query_geometry = ogr.Null ->
        fs.lookup INDEX_FILE d = Some (File index_file) ->
        (csv.DictReader (readlines index_file)).1 = [] ->
        query_index d query_geometry
        = match (csv.DictReader (readlines index_file)).2 with
          | None => Ok []
          | Some e => Raise e
          end).
Proof.
  unfold query_index. repeat split.
  - intros ->. by destruct (ogr.CreateGeometryFromJson query_geometry).
  - by intros ->.
  - intros index_file row rows -> -> Hrows. simpl.
    destruct (csv.DictReader (readlines index_file)) as [rows0 stopped].
    simpl in *. subst.
    destruct (scan_without_geometry row rows []) as [e He].
    exists e. by rewrite He.
  - intros index_file -> -> Hrows. simpl.
    destruct (csv.DictReader (readlines index_file)) as [rows0 stopped].
    simpl in *. subst. by destruct stopped.
Qed.

Lemma scan_agree (query_geom : option ogr.Geometry)
    (rows1 rows2 : list (gmap string Py.value)) :
  Forall2 agree rows1 rows2 ->
  forall overlapping_files,
    scan query_geom rows1 overlapping_files = scan query_geom rows2 overlapping_files.
Proof.
  induction 1 as [| row1 row2 rows1 rows2 [Hname Hwkt] _ IH]; intros acc; simpl;
    [done |].
  unfold getitem. rewrite Hwkt, Hname.
  destruct (row2 !! "Geometry4326") as [v |]; simpl; [| done].
  destruct (geometry_from_wkt v) as [file_geom | e]; simpl; [| done].
  destruct (intersects query_geom file_geom) as [[] | e]; simpl; [| apply IH | done].
  destruct (row2 !! "FileName"); simpl; [apply IH | done].
Qed.

(** C10, as the code has it.  The loop of a query looks at the [FileName]
    and [Geometry4326] entries of a row and at nothing else: two index
    files on which the reader ends in the same way, as when both are read
    to their end, and whose rows agree on these two columns give the same
    result (the same list or the same exception) for every query geometry.
    The reader itself takes in every column: a field larger than its limit
    ends the query with an error, in whatever column it stands. *)
Theorem query_index_two_columns (d1 d2 : directory) (index1 index2 : file) :
  fs.lookup INDEX_FILE d1 = Some (File index1) ->
  fs.lookup INDEX_FILE d2 = Some (File index2) ->
  (csv.DictReader (readlines index1)).2 = (csv.DictReader (readlines index2)).2 ->
  Forall2 agree (csv.DictReader (readlines index1)).1
                (csv.DictReader (readlines index2)).1 ->
  forall query_geometry : string,
    query_index d1 query_geometry = query_index d2 query_geometry.
Proof.
  intros H1 H2 Hstop Hrows query_geometry. unfold query_index. rewrite H1, H2.
  destruct (ogr.returned (ogr.CreateGeometryFromJson query_geometry))
    as [query_geom | e]; simpl; [| done].
  destruct (csv.DictReader (readlines index1)) as [rows1 stopped1].
  destruct (csv.DictReader (readlines index2)) as [rows2 stopped2].
  simpl in *. subst. by rewrite (scan_agree query_geom rows1 rows2 Hrows).
Qed.

End Query.

(** ** Writing an index and reading it back *)

(** *** Lines and characters *)

Lemma parse_line_chars (line : string) (r : csv.Reader) :
  csv.parse_line r line
  = (r' ← parse_chars r line; csv.parse_process_char r' csv.EOL).
Proof.
  revert r. induction line as [| c line IH]; intros r; simpl; [done |].
  destruct (csv.parse_process_char r (csv.Char c)); simpl; [apply IH | done].
Qed.

Lemma parse_chars_app (s1 s2 : string) (r : csv.Reader) :
  parse_chars r (s1 +:+ s2) = (r' ← parse_chars r s1; parse_chars r' s2).
Proof.
  revert r. induction s1 as [| c s1 IH]; intros r; simpl; [done |].
  destruct (csv.parse_process_char r (csv.Char c)); simpl; [apply IH | done].
Qed.

Lemma records_cons (r : csv.Reader) (line : string) (rest : list string) :
  csv.records r (line :: rest)
  = match parse_chars r line with
    | Raise e => ([], Some e)
    | Ok r1 => end_of_line r1 (fun r2 => csv.records r2 rest)
    end.
Proof.
  cbn [csv.records]. rewrite parse_line_chars. unfold end_of_line.
  destruct (parse_chars r line) as [r1 | e]; simpl; [| done].
  by destruct (csv.parse_process_char r1 csv.EOL).
Qed.

Lemma splitlines_raise (s line : string) (r : csv.Reader) (e : exn) :
  parse_chars r line = Raise e ->
  csv.records r (splitlines line s) = ([], Some e).
Proof.
  revert line. induction s as [| c s IH]; intros line Hline.
  - destruct line as [| a line]; [done |].
    cbn [splitlines]. by rewrite records_cons, Hline.
  - cbn [splitlines]. destruct (Ascii.eqb c LF).
    + by rewrite records_cons, parse_chars_app, Hline.
    + apply IH. by rewrite parse_chars_app, Hline.
Qed.

(** Reading the lines of a text is reading the text. *)
Lemma records_splitlines (s line : string) (r0 r : csv.Reader) :
  parse_chars r0 line = Ok r ->
  csv.records r0 (splitlines line s)
  = stream r (negb (String.eqb line EmptyString)) s.
Proof.
  revert line r0 r. induction s as [| c s IH]; intros line r0 r Hline.
  - destruct line as [| a line].
    + simpl in Hline. by injection Hline as ->.
    + cbn [splitlines stream String.eqb negb]. by rewrite records_cons, Hline.
  - cbn [splitlines stream].
    destruct (csv.parse_process_char r (csv.Char c)) as [r1 | e] eqn:Hc.
    + assert (Hline1 : parse_chars r0 (line +:+ String c EmptyString) = Ok r1).
      { rewrite parse_chars_app, Hline. simpl. by rewrite Hc. }
      destruct (Ascii.eqb c LF).
      * rewrite records_cons, Hline1. unfold end_of_line.
        destruct (csv.parse_process_char r1 csv.EOL) as [r2 | e]; [| done].
        destruct (bool_decide _).
        -- by rewrite (IH EmptyString csv.parse_reset csv.parse_reset).
        -- by rewrite (IH EmptyString r2 r2).
      * rewrite (IH _ r0 r1 Hline1). by destruct line.
    + assert (Hline1 : parse_chars r0 (line +:+ String c EmptyString) = Raise e).
      { rewrite parse_chars_app, Hline. simpl. by rewrite Hc. }
      destruct (Ascii.eqb c LF).
      * by rewrite records_cons, Hline1.
      * by apply splitlines_raise.
Qed.

(** *** Fields *)

Lemma length_append (s1 s2 : string) :
  String.length (s1 +:+ s2) = (String.length s1 + String.length s2)%nat.
Proof.
  induction s1 as [| c s1 IH]; [done |]. rewrite append_cons. simpl. by rewrite IH.
Qed.

Lemma field_limit_pos : 0 < csv.field_limit.
Proof. done. Qed.

(** Arithmetic on the lengths of fields. *)
Ltac lengths :=
  pose proof field_limit_pos;
  unfold fits in *;
  try match goal with
      | |- (_ <=? _) = true => apply Z.leb_le
      end;
  repeat match goal with
         | H : (_ <=? _) = true |- _ => apply Z.leb_le in H
         end;
  rewrite ?length_append in *;
  cbn [String.length] in *; lia.

Lemma parse_add_char_fits (st : csv.ParserState) (saved : list string)
    (collected : string) (c : ascii) :
  Z.of_nat (String.length collected) < csv.field_limit ->
  csv.parse_add_char (csv.mkReader st saved collected) c
  = Ok (csv.mkReader st saved (collected +:+ String c EmptyString)).
Proof.
  intros Hlen. unfold csv.parse_add_char. cbn [csv.state csv.fields csv.field].
  by destruct (Z.leb_spec csv.field_limit (Z.of_nat (String.length collected)));
    [lia |].
Qed.

Lemma parse_add_char_full (st : csv.ParserState) (saved : list string)
    (collected : string) (c : ascii) :
  csv.field_limit <= Z.of_nat (String.length collected) ->
  csv.parse_add_char (csv.mkReader st saved collected) c = Raise csv_Error.
Proof.
  intros Hlen. unfold csv.parse_add_char. cbn [csv.state csv.fields csv.field].
  by destruct (Z.leb_spec csv.field_limit (Z.of_nat (String.length collected)));
    [| lia].
Qed.

Lemma stream_next (r : csv.Reader) (b b' : bool) (c : ascii) (s : string) :
  stream r b (String c s) = stream r b' (String c s).
Proof. reflexivity. Qed.

Lemma stream_char (r r1 : csv.Reader) (b : bool) (c : ascii) (s : string) :
  csv.parse_process_char r (csv.Char c) = Ok r1 ->
  Ascii.eqb c LF = false ->
  stream r b (String c s) = stream r1 true s.
Proof. intros Hc Hlf. cbn [stream]. by rewrite Hc, Hlf. Qed.

Lemma stream_LF (r r1 : csv.Reader) (b : bool) (s : string) :
  csv.parse_process_char r (csv.Char LF) = Ok r1 ->
  stream r b (String LF s) = end_of_line r1 (fun r2 => stream r2 false s).
Proof. intros Hc. cbn [stream]. by rewrite Hc. Qed.

Lemma stream_raise (r : csv.Reader) (b : bool) (c : ascii) (s : string) (e : exn) :
  csv.parse_process_char r (csv.Char c) = Raise e ->
  stream r b (String c s) = ([], Some e).
Proof. intros Hc. cbn [stream]. by rewrite Hc. Qed.

Lemma not_special (c : ascii) :
  csv.special c = false ->
  Ascii.eqb c csv.delimiter = false /\ Ascii.eqb c csv.quotechar = false
  /\ Ascii.eqb c CR = false /\ Ascii.eqb c LF = false.
Proof.
  unfold csv.special. rewrite !orb_false_iff. tauto.
Qed.

(** One step of the parser, computed from what is known of the character
    and of the size of the field. *)
Ltac csv_step :=
  unfold csv.parse_process_char; cbn [csv.state csv.fields csv.field];
  unfold csv.start_field, csv.is_newline, csv.set_state, csv.parse_save_field;
  cbn [csv.state csv.fields csv.field];
  repeat match goal with
         | H : Ascii.eqb _ _ = _ |- _ => rewrite H
         end;
  rewrite ?parse_add_char_fits by lengths;
  rewrite ?parse_add_char_full by lengths;
  cbn; reflexivity.

(** Inside an unquoted field, ordinary characters are collected while the
    field has room. *)
Lemma stream_in_field (f : string) (saved : list string) (collected : string)
    (b b' : bool) (d : ascii) (rest : string) :
  csv.any_special f = false ->
  Z.of_nat (String.length (collected +:+ f)) <= csv.field_limit ->
  stream (csv.mkReader csv.IN_FIELD saved collected) b (f +:+ String d rest)
  = stream (csv.mkReader csv.IN_FIELD saved (collected +:+ f)) b' (String d rest).
Proof.
  revert collected b. induction f as [| c f IH]; intros collected b Hf Hfit.
  - by rewrite append_nil_r.
  - simpl in Hf. apply orb_false_iff in Hf as [Hc Hf].
    destruct (not_special c Hc) as (Hd & Hq & Hcr & Hlf).
    rewrite append_cons.
    rewrite (stream_char _
               (csv.mkReader csv.IN_FIELD saved (collected +:+ String c EmptyString))
               b c _); [| csv_step | done].
    rewrite (IH _ true Hf) by lengths. by rewrite append_assoc.
Qed.

(** A field that outgrows the limit stops the reader. *)
Lemma stream_in_field_over_limit (f : string) (saved : list string)
    (collected : string) (b : bool) (rest : string) :
  csv.any_special f = false ->
  Z.of_nat (String.length collected) <= csv.field_limit ->
  csv.field_limit < Z.of_nat (String.length (collected +:+ f)) ->
  stream (csv.mkReader csv.IN_FIELD saved collected) b (f +:+ rest)
  = ([], Some csv_Error).
Proof.
  revert collected b. induction f as [| c f IH]; intros collected b Hf Hin Hover.
  - rewrite append_nil_r in Hover. lia.
  - simpl in Hf. apply orb_false_iff in Hf as [Hc Hf].
    destruct (not_special c Hc) as (Hd & Hq & Hcr & Hlf).
    rewrite append_cons.
    destruct (Z.eq_dec (Z.of_nat (String.length collected)) csv.field_limit)
      as [Hfull | Hroom].
    + apply stream_raise. csv_step.
    + rewrite (stream_char _
                 (csv.mkReader csv.IN_FIELD saved (collected +:+ String c EmptyString))
                 b c _); [| csv_step | done].
      apply (IH _ true Hf); lengths.
Qed.

Lemma stream_field_over_limit (st : csv.ParserState) (saved : list string)
    (f : string) (b : bool) (rest : string) :
  st = csv.START_RECORD \/ st = csv.START_FIELD ->
  csv.any_special f = false ->
  csv.field_limit < Z.of_nat (String.length f) ->
  stream (csv.mkReader st saved EmptyString) b (f +:+ rest) = ([], Some csv_Error).
Proof.
  intros Hst Hf Hover. destruct f as [| c f]; [lengths |].
  simpl in Hf. apply orb_false_iff in Hf as [Hc Hf].
  destruct (not_special c Hc) as (Hd & Hq & Hcr & Hlf).
  rewrite append_cons.
  rewrite (stream_char _
             (csv.mkReader csv.IN_FIELD saved (String c EmptyString)) b c _);
    [| by destruct Hst as [-> | ->]; csv_step | done].
  apply stream_in_field_over_limit; [done | lengths | lengths].
Qed.

(** Inside a quoted field, the characters of the field are collected: a
    doubled quote as one quote, a line feed across the end of the line. *)
Lemma stream_in_quoted (f : string) (saved : list string) (collected : string)
    (b b' : bool) (rest : string) :
  Z.of_nat (String.length (collected +:+ f)) <= csv.field_limit ->
  stream (csv.mkReader csv.IN_QUOTED_FIELD saved collected) b
    (csv.doubled f +:+ String csv.quotechar rest)
  = stream (csv.mkReader csv.IN_QUOTED_FIELD saved (collected +:+ f)) b'
      (String csv.quotechar rest).
Proof.
  revert collected b. induction f as [| c f IH]; intros collected b Hfit.
  - by rewrite append_nil_r.
  - cbn [csv.doubled]. destruct (Ascii.eqb c csv.quotechar) eqn:Hq.
    + apply Ascii.eqb_eq in Hq. subst c. rewrite !append_cons.
      rewrite (stream_char _
                 (csv.mkReader csv.QUOTE_IN_QUOTED_FIELD saved collected)
                 b _ _); [| csv_step | done].
      rewrite (stream_char _
                 (csv.mkReader csv.IN_QUOTED_FIELD saved
                    (collected +:+ String csv.quotechar EmptyString))
                 true _ _); [| csv_step | done].
      rewrite (IH _ true) by lengths. by rewrite append_assoc.
    + rewrite append_cons. destruct (Ascii.eqb c LF) eqn:Hlf.
      * apply Ascii.eqb_eq in Hlf. subst c.
        rewrite (stream_LF _
                   (csv.mkReader csv.IN_QUOTED_FIELD saved
                      (collected +:+ String LF EmptyString))
                   b _); [| csv_step].
        unfold end_of_line. cbn.
        rewrite (IH _ false) by lengths. by rewrite append_assoc.
      * rewrite (stream_char _
                   (csv.mkReader csv.IN_QUOTED_FIELD saved
                      (collected +:+ String c EmptyString))
                   b c _); [| csv_step | done].
        rewrite (IH _ true) by lengths. by rewrite append_assoc.
Qed.

Lemma join_append_quoted (f rest : string) :
  csv.any_special f = true ->
  csv.join_append f +:+ rest
  = String csv.quotechar (csv.doubled f +:+ String csv.quotechar rest).
Proof.
  intros Hf. unfold csv.join_append. rewrite Hf.
  by rewrite append_assoc, !append_cons, append_nil_l.
Qed.

Lemma join_append_plain (f : string) :
  csv.any_special f = false -> csv.join_append f = f.
Proof. intros Hf. unfold csv.join_append. by rewrite Hf. Qed.

(** A written field followed by the delimiter is read as that field. *)
Lemma stream_field_delimiter (st : csv.ParserState) (saved : list string)
    (f : string) (b : bool) (rest : string) :
  st = csv.START_RECORD \/ st = csv.START_FIELD ->
  fits f = true ->
  stream (csv.mkReader st saved EmptyString) b
    (csv.join_append f +:+ String csv.delimiter rest)
  = stream (csv.mkReader csv.START_FIELD (saved ++ [f]) EmptyString) true rest.
Proof.
  intros Hst Hfit. destruct (csv.any_special f) eqn:Hf.
  - rewrite (join_append_quoted _ _ Hf).
    rewrite (stream_char _ (csv.mkReader csv.IN_QUOTED_FIELD saved EmptyString) b _ _);
      [| by destruct Hst as [-> | ->]; csv_step | done].
    rewrite (stream_in_quoted f saved EmptyString true true) by lengths.
    rewrite append_nil_l.
    rewrite (stream_char _ (csv.mkReader csv.QUOTE_IN_QUOTED_FIELD saved f) true _ _);
      [| csv_step | done].
    by rewrite (stream_char _
                  (csv.mkReader csv.START_FIELD (saved ++ [f]) EmptyString) true _ _);
      [| csv_step | done].
  - rewrite (join_append_plain _ Hf). destruct f as [| c f].
    + rewrite append_nil_l.
      by rewrite (stream_char _
                    (csv.mkReader csv.START_FIELD (saved ++ [EmptyString]) EmptyString)
                    b _ _);
        [| by destruct Hst as [-> | ->]; csv_step | done].
    + simpl in Hf. apply orb_false_iff in Hf as [Hc Hf].
      destruct (not_special c Hc) as (Hd & Hq & Hcr & Hlf).
      rewrite append_cons.
      rewrite (stream_char _
                 (csv.mkReader csv.IN_FIELD saved (String c EmptyString)) b c _);
        [| by destruct Hst as [-> | ->]; csv_step | done].
      rewrite (stream_in_field f saved _ true true _ _ Hf) by lengths.
      rewrite append_cons, append_nil_l.
      by rewrite (stream_char _
                    (csv.mkReader csv.START_FIELD (saved ++ [String c f]) EmptyString)
                    true _ _);
        [| csv_step | done].
Qed.

(** A written field followed by the end of the line completes the record,
    unless the record is one empty field written without quotes. *)
Lemma stream_field_LF (st : csv.ParserState) (saved : list string)
    (f : string) (b : bool) (rest : string) :
  st = csv.START_RECORD /\ csv.join_append f <> EmptyString \/ st = csv.START_FIELD ->
  fits f = true ->
  stream (csv.mkReader st saved EmptyString) b (csv.join_append f +:+ String LF rest)
  = let '(recs, e) := stream csv.parse_reset false rest in
    ((saved ++ [f]) :: recs, e).
Proof.
  intros Hst Hfit. destruct (csv.any_special f) eqn:Hf.
  - rewrite (join_append_quoted _ _ Hf).
    rewrite (stream_char _ (csv.mkReader csv.IN_QUOTED_FIELD saved EmptyString) b _ _);
      [| by destruct Hst as [[-> _] | ->]; csv_step | done].
    rewrite (stream_in_quoted f saved EmptyString true true) by lengths.
    rewrite append_nil_l.
    rewrite (stream_char _ (csv.mkReader csv.QUOTE_IN_QUOTED_FIELD saved f) true _ _);
      [| csv_step | done].
    by rewrite (stream_LF _ (csv.mkReader csv.EAT_CRNL (saved ++ [f]) EmptyString) true _);
      [| csv_step].
  - rewrite (join_append_plain _ Hf) in *. destruct f as [| c f].
    + destruct Hst as [[_ Hne] | ->]; [done |].
      rewrite append_nil_l.
      by rewrite (stream_LF _
                    (csv.mkReader csv.EAT_CRNL (saved ++ [EmptyString]) EmptyString) b _);
        [| csv_step].
    + simpl in Hf. apply orb_false_iff in Hf as [Hc Hf].
      destruct (not_special c Hc) as (Hd & Hq & Hcr & Hlf).
      rewrite append_cons.
      rewrite (stream_char _
                 (csv.mkReader csv.IN_FIELD saved (String c EmptyString)) b c _);
        [| by destruct Hst as [[-> _] | ->]; csv_step | done].
      rewrite (stream_in_field f saved _ true true _ _ Hf) by lengths.
      rewrite append_cons, append_nil_l.
      by rewrite (stream_LF _
                    (csv.mkReader csv.EAT_CRNL (saved ++ [String c f]) EmptyString)
                    true _);
        [| csv_step].
Qed.

(** *** Records *)

Lemma join_append_nonempty (f : string) :
  f <> EmptyString -> csv.join_append f <> EmptyString.
Proof.
  intros Hf. unfold csv.join_append. by destruct (csv.any_special f).
Qed.

Lemma join_cons (sep a b : string) (rest : list string) :
  Py.join sep (a :: b :: rest) = a +:+ sep +:+ Py.join sep (b :: rest).
Proof. reflexivity. Qed.

Lemma join_cons_nonempty (sep a : string) (rest : list string) :
  rest <> [] -> Py.join sep (a :: rest) = a +:+ sep +:+ Py.join sep rest.
Proof. by destruct rest. Qed.

(** The written fields of a record followed by the end of the line are read
    as that record. *)
Lemma stream_row (fs : list string) (f : string) (st : csv.ParserState)
    (saved : list string) (b : bool) (rest : string) :
  st = csv.START_RECORD /\ (fs = [] -> f <> EmptyString) \/ st = csv.START_FIELD ->
  Forall (fun f => fits f = true) (f :: fs) ->
  stream (csv.mkReader st saved EmptyString) b
    (Py.join (String csv.delimiter EmptyString) (map csv.join_append (f :: fs))
     +:+ String LF rest)
  = let '(recs, e) := stream csv.parse_reset false rest in
    ((saved ++ f :: fs) :: recs, e).
Proof.
  revert f st saved b. induction fs as [| f2 fs IH]; intros f st saved b Hst Hfit;
    apply Forall_cons in Hfit as [Hf Hfs].
  - cbn [map Py.join]. apply stream_field_LF; [| done].
    destruct Hst as [[-> Hne] | ->]; [left | by right].
    split; [done |]. apply join_append_nonempty. by apply Hne.
  - cbn [map]. rewrite join_cons, !append_assoc, append_cons, append_nil_l.
    rewrite stream_field_delimiter by (done || destruct Hst as [[-> _] | ->]; auto).
    change (csv.join_append f2 :: map csv.join_append fs)
      with (map csv.join_append (f2 :: fs)).
    rewrite (IH f2 csv.START_FIELD (saved ++ [f]) true) by (done || by right).
    by rewrite <- app_assoc.
Qed.

(** A record with a field larger than the limit stops the reader when the
    fields before it have been taken. *)
Lemma stream_row_over_limit (before : list string) (f : string)
    (after : list string) (st : csv.ParserState) (saved : list string)
    (b : bool) (rest : string) :
  st = csv.START_RECORD \/ st = csv.START_FIELD ->
  Forall (fun f => fits f = true) before ->
  csv.any_special f = false ->
  csv.field_limit < Z.of_nat (String.length f) ->
  stream (csv.mkReader st saved EmptyString) b
    (Py.join (String csv.delimiter EmptyString)
       (map csv.join_append (before ++ f :: after)) +:+ rest)
  = ([], Some csv_Error).
Proof.
  intros Hst Hbefore Hf Hover. revert st saved b Hst.
  induction Hbefore as [| f1 before Hf1 _ IH]; intros st saved b Hst.
  - cbn [app map]. rewrite (join_append_plain f Hf).
    destruct after as [| f2 after]; cbn [map].
    + cbn [Py.join]. by apply stream_field_over_limit.
    + rewrite join_cons, append_assoc. by apply stream_field_over_limit.
  - cbn [app map]. rewrite join_cons_nonempty by (by destruct before).
    rewrite !append_assoc, append_cons, append_nil_l.
    rewrite stream_field_delimiter by done.
    apply IH. by right.
Qed.

Lemma stream_written_line (row : list string) (rest : string) :
  Forall (fun f => fits f = true) row ->
  stream csv.parse_reset false (written_line row +:+ String LF rest)
  = let '(recs, e) := stream csv.parse_reset false rest in (row :: recs, e).
Proof.
  intros Hfit. destruct row as [| f fs].
  - unfold written_line. cbn [map Py.join]. rewrite append_nil_l.
    by rewrite (stream_LF _ (csv.mkReader csv.EAT_CRNL [] EmptyString) false _);
      [| csv_step].
  - destruct f as [| c f], fs as [| f2 fs]; unfold written_line;
      try (apply (stream_row _ _ csv.START_RECORD []); [left; by split | done]).
    rewrite !append_cons, append_nil_l.
    rewrite (stream_char _ (csv.mkReader csv.IN_QUOTED_FIELD [] EmptyString) false _ _);
      [| csv_step | done].
    rewrite (stream_char _ (csv.mkReader csv.QUOTE_IN_QUOTED_FIELD [] EmptyString)
               true _ _); [| csv_step | done].
    by rewrite (stream_LF _ (csv.mkReader csv.EAT_CRNL [EmptyString] EmptyString) true _);
      [| csv_step].
Qed.

Lemma stream_delivered_text (rows : list (list string)) :
  Forall (Forall (fun f => fits f = true)) rows ->
  stream csv.parse_reset false (delivered_text rows) = (rows, None).
Proof.
  induction 1 as [| row rows Hrow _ IH]; [done |].
  cbn [delivered_text foldr]. rewrite stream_written_line by done.
  change (foldr _ _ rows) with (delivered_text rows). by rewrite IH.
Qed.

(** The reader yields the records before the one with the field larger than
    the limit, and stops there. *)
Lemma stream_delivered_text_over_limit (rows : list (list string))
    (before : list string) (f : string) (after : list string)
    (rows' : list (list string)) :
  Forall (Forall (fun f => fits f = true)) rows ->
  Forall (fun f => fits f = true) before ->
  csv.any_special f = false ->
  csv.field_limit < Z.of_nat (String.length f) ->
  stream csv.parse_reset false
    (delivered_text (rows ++ (before ++ f :: after) :: rows'))
  = (rows, Some csv_Error).
Proof.
  intros Hrows Hbefore Hf Hover.
  induction Hrows as [| row rows Hrow _ IH].
  - cbn [app delivered_text foldr].
    assert (Hline : written_line (before ++ f :: after)
                    = Py.join (String csv.delimiter EmptyString)
                        (map csv.join_append (before ++ f :: after))).
    { unfold written_line. destruct before as [| [| c1 f1] before]; cbn [app].
      - destruct f; [lengths | reflexivity].
      - by destruct before.
      - reflexivity. }
    rewrite Hline.
    apply (stream_row_over_limit before f after csv.START_RECORD [] false);
      [by left | done | done | done].
  - cbn [app delivered_text foldr]. rewrite stream_written_line by done.
    change (foldr _ _ (rows ++ _)) 
      with (delivered_text (rows ++ (before ++ f :: after) :: rows')).
    by rewrite IH.
Qed.

(** *** Text *)

Lemma no_cr_app (s1 s2 : string) :
  no_cr (s1 +:+ s2) = no_cr s1 && no_cr s2.
Proof.
  induction s1 as [| c s1 IH]; [done |].
  rewrite append_cons. simpl. by rewrite IH, andb_assoc.
Qed.

Lemma no_cr_doubled (f : string) : no_cr f = true -> no_cr (csv.doubled f) = true.
Proof.
  induction f as [| c f IH]; [done |]. simpl.
  intros [Hc Hf]%andb_true_iff.
  destruct (Ascii.eqb c csv.quotechar) eqn:Hq; simpl.
  - by apply IH.
  - by rewrite Hc, IH.
Qed.

Lemma no_cr_join_append (f : string) :
  no_cr f = true -> no_cr (csv.join_append f) = true.
Proof.
  intros Hf. unfold csv.join_append. destruct (csv.any_special f); [| done].
  rewrite append_cons. simpl. by rewrite no_cr_app, no_cr_doubled.
Qed.

Lemma no_cr_join (fields : list string) :
  Forall (fun f => no_cr f = true) fields ->
  no_cr (Py.join (String csv.delimiter EmptyString) (map csv.join_append fields)) = true.
Proof.
  induction 1 as [| f fields Hf Hfields IH]; [done |].
  destruct fields as [| f2 fields]; cbn [map].
  - by apply no_cr_join_append.
  - rewrite join_cons, !no_cr_app, no_cr_join_append by done. exact IH.
Qed.

Lemma no_cr_written_line (row : list string) :
  Forall (fun f => no_cr f = true) row -> no_cr (written_line row) = true.
Proof.
  intros Hrow. unfold written_line.
  destruct row as [| [| c f] [| f2 fs]]; try done; by apply no_cr_join.
Qed.

Lemma writerow_written_line (row : list string) :
  csv.writerow row = written_line row +:+ csv.lineterminator.
Proof. by destruct row as [| [| c f] [| f2 fs]]. Qed.

(** Universal newlines turn the terminator of a line without CR into LF and
    leave the line alone. *)
Lemma universal_newlines_line (s rest : string) :
  no_cr s = true ->
  universal_newlines false (s +:+ csv.lineterminator +:+ rest)
  = s +:+ String LF (universal_newlines false rest).
Proof.
  induction s as [| c s IH]; intros Hs.
  - done.
  - simpl in Hs. apply andb_true_iff in Hs as [Hc Hs]. apply negb_true_iff in Hc.
    rewrite !append_cons. cbn [universal_newlines]. rewrite Hc.
    destruct (Ascii.eqb c LF) eqn:Hlf; rewrite IH by done; [| done].
    apply Ascii.eqb_eq in Hlf. by subst c.
Qed.

Lemma universal_newlines_written (rows : list (list string)) :
  Forall (Forall (fun f => no_cr f = true)) rows ->
  universal_newlines false
    (foldr (fun row s => csv.writerow row +:+ s) EmptyString rows)
  = delivered_text rows.
Proof.
  induction 1 as [| row rows Hrow _ IH]; [done |].
  cbn [foldr delivered_text].
  rewrite writerow_written_line, append_assoc.
  rewrite universal_newlines_line by (by apply no_cr_written_line).
  by rewrite IH.
Qed.

(** Rows whose fields hold no carriage return and fit the limit are read
    back as written. *)
Theorem reader_written_rows (rows : list (list string)) :
  Forall (Forall (fun f => no_cr f = true)) rows ->
  Forall (Forall (fun f => fits f = true)) rows ->
  csv.reader (readlines (text_file
    (foldr (fun row s => csv.writerow row +:+ s) EmptyString rows)))
  = (rows, None).
Proof.
  intros Hrows Hfit. unfold csv.reader, readlines. cbn [text text_file].
  rewrite (universal_newlines_written rows Hrows).
  rewrite (records_splitlines _ EmptyString csv.parse_reset csv.parse_reset) by done.
  by apply stream_delivered_text.
Qed.

(** Rows of which one holds a field larger than the limit are read back up
    to that row. *)
Lemma reader_over_limit (rows : list (list string)) (before : list string)
    (f : string) (after : list string) (rows' : list (list string)) :
  Forall (Forall (fun f => no_cr f = true))
    (rows ++ (before ++ f :: after) :: rows') ->
  Forall (Forall (fun f => fits f = true)) rows ->
  Forall (fun f => fits f = true) before ->
  csv.any_special f = false ->
  csv.field_limit < Z.of_nat (String.length f) ->
  csv.reader (readlines (text_file
    (foldr (fun row s => csv.writerow row +:+ s) EmptyString
       (rows ++ (before ++ f :: after) :: rows'))))
  = (rows, Some csv_Error).
Proof.
  intros Hcr Hrows Hbefore Hf Hover. unfold csv.reader, readlines.
  cbn [text text_file].
  rewrite (universal_newlines_written _ Hcr).
  rewrite (records_splitlines _ EmptyString csv.parse_reset csv.parse_reset) by done.
  by apply stream_delivered_text_over_limit.
Qed.

Lemma row_dict_header (id filename size x1 y1 x2 y2 srid wkt : string) :
  let row := csv.row_dict header [id; filename; size; x1; y1; x2; y2; srid; wkt] in
  row !! "ID" = Some (Str id) /\ row !! "FileName" = Some (Str filename)
  /\ row !! "FileSize" = Some (Str size)
  /\ row !! "x1" = Some (Str x1) /\ row !! "y1" = Some (Str y1)
  /\ row !! "x2" = Some (Str x2) /\ row !! "y2" = Some (Str y2)
  /\ row !! "SRID" = Some (Str srid) /\ row !! "Geometry4326" = Some (Str wkt).
Proof. vm_compute. repeat split. Qed.

Lemma filter_nonempty (rows : list (list string)) :
  Forall (fun row => row <> []) rows ->
  List.filter (fun row => negb (csv.is_empty_row row)) rows = rows.
Proof.
  induction 1 as [| row rows Hrow _ IH]; [done |].
  cbn [List.filter]. destruct row; [done |]. cbn. by rewrite IH.
Qed.

Lemma header_fits : Forall (fun f => fits f = true) header.
Proof. by repeat constructor. Qed.

(** The index of a directory is read back row by row as it was written,
    provided no field of it holds a carriage return or is larger than the
    limit. *)
Theorem index_text_round_trip (rows : list (list string)) :
  Forall (Forall (fun f => no_cr f = true)) rows ->
  Forall (Forall (fun f => fits f = true)) rows ->
  Forall (fun row => row <> []) rows ->
  csv.DictReader (readlines (text_file (index_text rows)))
  = (map (csv.row_dict header) rows, None).
Proof.
  intros Hrows Hfit Hnonempty. unfold csv.DictReader, index_text.
  rewrite (reader_written_rows (header :: rows)).
  - by rewrite (filter_nonempty rows Hnonempty).
  - constructor; [| done]. by repeat constructor.
  - constructor; [apply header_fits | done].
Qed.

(** An index with a field larger than the limit is read back up to the
    record of that field, where the reader raises. *)
Lemma index_text_over_limit (rows : list (list string)) (before : list string)
    (f : string) (after : list string) (rows' : list (list string)) :
  Forall (Forall (fun f => no_cr f = true))
    (rows ++ (before ++ f :: after) :: rows') ->
  Forall (Forall (fun f => fits f = true)) rows ->
  Forall (fun row => row <> []) rows ->
  Forall (fun f => fits f = true) before ->
  csv.any_special f = false ->
  csv.field_limit < Z.of_nat (String.length f) ->
  csv.DictReader (readlines (text_file
    (index_text (rows ++ (before ++ f :: after) :: rows'))))
  = (map (csv.row_dict header) rows, Some csv_Error).
Proof.
  intros Hcr Hrows Hnonempty Hbefore Hf Hover. unfold csv.DictReader, index_text.
  rewrite app_comm_cons.
  rewrite (reader_over_limit (header :: rows) before f after rows').
  - by rewrite (filter_nonempty rows Hnonempty).
  - rewrite <- app_comm_cons. constructor; [| done]. by repeat constructor.
  - constructor; [apply header_fits | done].
  - done.
  - done.
  - done.
Qed.

(** *** Rows of [create_index] *)

Lemma no_cr_uint (d : Decimal.uint) : no_cr (NilEmpty.string_of_uint d) = true.
Proof. induction d; simpl; auto. Qed.

Lemma no_cr_str_int (n : Z) : no_cr (str_int n) = true.
Proof.
  unfold str_int, NilZero.string_of_int, NilZero.string_of_uint.
  destruct (Z.to_int n) as [d | d]; destruct d; simpl; auto using no_cr_uint.
Qed.

Section RoundTrip.

Context {floats : Py.Float} {resolver : osr.Resolver}.

(** The text of a float holds no carriage return, nor does an authority
    code. *)
Hypothesis float_str_no_cr : forall x : Q, no_cr (float_str x) = true.
Hypothesis authority_no_cr : forall wkt code : string,
  osr.GetAttrValue_AUTHORITY_1 (osr.from_wkt wkt) = Some code -> no_cr code = true.

Lemma no_cr_get_epsg_code (dataset : Dataset) :
  no_cr (get_epsg_code dataset) = true.
Proof.
  unfold get_epsg_code.
  destruct (String.eqb (GetProjection dataset) EmptyString); [done |].
  destruct (_ || _); [| done].
  destruct (osr.GetAttrValue_AUTHORITY_1 _) as [code |] eqn:Hcode; [| done].
  destruct (String.eqb code EmptyString); [done |].
  by apply (authority_no_cr _ _ Hcode).
Qed.

Lemma no_cr_wkt_polygon (min_x min_y max_x max_y : Q) :
  no_cr (wkt_polygon min_x min_y max_x max_y) = true.
Proof.
  unfold wkt_polygon. by rewrite !no_cr_app, !float_str_no_cr.
Qed.

Lemma no_cr_index_row (file_id : Z) (filename : string) (x : node)
    (dataset : Dataset) :
  no_cr filename = true ->
  Forall (fun f => no_cr f = true) (index_row file_id filename x dataset).
Proof.
  intros Hname. unfold index_row.
  destruct (bounding_box dataset) as [[[min_x min_y] max_x] max_y].
  repeat constructor;
    auto using no_cr_str_int, no_cr_get_epsg_code, no_cr_wkt_polygon.
Qed.

Lemma no_cr_index_files (g : gdal.config) (listing : directory) (file_id : Z) :
  Forall (fun name => no_cr name = true) (listdir listing) ->
  Forall (Forall (fun f => no_cr f = true)) (index_files g file_id listing).1.
Proof.
  revert file_id. induction listing as [| [filename x] rest IH];
    intros file_id Hnames; simpl; [constructor |].
  apply Forall_cons in Hnames as [Hname Hnames].
  destruct (endswith filename ".tif"); [| by apply IH].
  destruct (gdal.Open g x) as [[dataset |] | e]; simpl.
  - specialize (IH (file_id + 1) Hnames).
    destruct (index_files g (file_id + 1) rest) as [rows r]. simpl in *.
    constructor; [by apply no_cr_index_row | exact IH].
  - by apply IH.
  - constructor.
Qed.

Lemma footprint_row_nonempty (row : list string) : footprint_row row -> row <> [].
Proof. by intros (? & ? & ? & ? & ? & ? & ? & ? & ->). Qed.

Lemma listdir_put (name : string) (x : node) (d : directory) (P : string -> Prop) :
  P name -> Forall P (listdir d) -> Forall P (listdir (put name x d)).
Proof.
  intros Hname. unfold listdir.
  induction d as [| [n y] rest IH]; simpl; intros Hd.
  - by repeat constructor.
  - apply Forall_cons in Hd as [Hn Hrest].
    destruct (String.eqb n name); simpl; constructor; auto.
Qed.

(** What [create_index] leaves when the index entry is no directory. *)
Lemma create_index_written (g : gdal.config) (d d' : directory) (r : result unit) :
  create_index g d = (d', r) ->
  r <> Raise IsADirectoryError ->
  fs.lookup INDEX_FILE d' = Some (File (text_file (index_text (written g d)))).
Proof.
  unfold create_index, written. intros Hrun Hr.
  destruct (index_files g 0 _) as [rows r0]. simpl.
  destruct (fs.lookup INDEX_FILE d) as [[f | sub] |];
    injection Hrun as <- <-; try done; apply lookup_put_eq.
Qed.

(** The round trip of an index whose directory has no carriage return in a
    file name, when no field written is larger than the limit of the
    reader: [csv.DictReader] yields, for each row that [create_index] wrote
    and in the same order, the dictionary of that row under the header. *)
Theorem create_index_round_trip (g : gdal.config) (d : directory) :
  Forall (fun name => no_cr name = true) (listdir d) ->
  Forall (Forall (fun f => fits f = true)) (written g d) ->
  csv.DictReader (readlines (text_file (index_text (written g d))))
  = (map (csv.row_dict header) (written g d), None).
Proof.
  intros Hnames Hfit.
  apply index_text_round_trip; [| done |].
  - apply no_cr_index_files. by apply listdir_put.
  - eapply Forall_impl; [apply index_files_footprint | apply footprint_row_nonempty].
Qed.

End RoundTrip.

(** *** From the directory to the answer *)

Section EndToEnd.

Context {floats : Py.Float} {resolver : osr.Resolver} {engine : ogr.Engine}.

Hypothesis float_str_no_cr : forall x : Q, no_cr (float_str x) = true.
Hypothesis authority_no_cr : forall wkt code : string,
  osr.GetAttrValue_AUTHORITY_1 (osr.from_wkt wkt) = Some code -> no_cr code = true.

Lemma written_record_read (row : list string) (rec : string * ogr.Geometry) :
  footprint_row row -> written_record row rec ->
  record_of (csv.row_dict header row) rec.
Proof.
  destruct rec as [name geometry].
  intros (id & filename & size & srid & min_x & min_y & max_x & max_y & ->)
    (Hname & wkt & Hwkt & Hgeom).
  simpl in Hname, Hwkt, Hgeom. injection Hname as ->. injection Hwkt as <-.
  unfold record_of. cbn [fst snd].
  pose proof (row_dict_header id name size (float_str min_x) (float_str min_y)
                (float_str max_x) (float_str max_y) srid
                (wkt_ring (corners (min_x, min_y, max_x, max_y)))) as Hrow.
  simpl in Hrow. destruct Hrow as (_ & Hfile & _ & _ & _ & _ & _ & _ & Hfootprint).
  split; [exact Hfile |]. eexists. split; [exact Hfootprint | exact Hgeom].
Qed.

(** X11. [create_index] followed by [query_index].  Take a runtime whose
    float texts hold no carriage return and a resolver whose authority codes
    hold none; a directory whose file names hold none, indexed by a call that
    did not fail on the index entry being a directory; rows written of which
    no field is larger than the limit of the reader, and whose footprints
    the engine reads as the geometries [recs]; and a query geometry that
    parses.  Then the query returns the names of the indexed rasters whose
    geometry intersects the query geometry, in the order in which they were
    indexed. *)
Theorem create_index_then_query (g : gdal.config) (d d' : directory)
    (r : result unit) (query_geometry : string) (q : ogr.Geometry)
    (recs : list (string * ogr.Geometry)) :
  Forall (fun name => no_cr name = true) (listdir d) ->
  Forall (Forall (fun f => fits f = true)) (written g d) ->
  create_index g d = (d', r) ->
  r <> Raise IsADirectoryError ->
  ogr.CreateGeometryFromJson query_geometry = ogr.Geometry_ q ->
  Forall2 written_record (written g d) recs ->
  query_index d' query_geometry = Ok (matching q recs).
Proof.
  intros Hnames Hfit Hrun Hr Hq Hrecs.
  pose proof (create_index_round_trip float_str_no_cr authority_no_cr g d
                Hnames Hfit) as Hread.
  apply (query_index_records d' query_geometry
           (text_file (index_text (written g d))) q recs).
  - by apply (create_index_written g d d' r).
  - unfold read_to_end. by rewrite Hread.
  - exact Hq.
  - rewrite Hread. clear Hread Hrun Hfit.
    cbn [fst]. apply Forall2_fmap_l.
    assert (Hrows : Forall footprint_row (written g d))
      by apply index_files_footprint.
    revert Hrows. induction Hrecs as [| row rec rows recs Hrec _ IH];
      intros Hrows; [constructor |].
    apply Forall_cons in Hrows as [Hrow Hrows].
    constructor; [by apply written_record_read | by apply IH].
Qed.

End EndToEnd.

(** ** The tree walk *)

(** Induction on a tree, with the property at hand for every entry of a
    directory. *)
Lemma node_ind_entries (P : node -> Prop) :
  (forall f, P (File f)) ->
  (forall d, Forall (fun entry => P entry.2) d -> P (Dir d)) ->
  forall x, P x.
Proof.
  intros HFile HDir. fix IH 1. intros [f | d]; [apply HFile | apply HDir].
  induction d as [| [name x] rest IHrest]; constructor; [apply IH | apply IHrest].
Qed.

Lemma lookup_Forall (P : node -> Prop) (d : directory) (name : string) (x : node) :
  Forall (fun entry => P entry.2) d -> fs.lookup name d = Some x -> P x.
Proof.
  induction 1 as [| [n y] rest Hy _ IH]; simpl; [done |].
  destruct (String.eqb n name); [by intros [= <-] | exact IH].
Qed.

Lemma same_index_refl (d : directory) : same_index d d.
Proof. unfold same_index. by destruct (fs.lookup INDEX_FILE d) as [[] |]. Qed.

Section WalkEntries.

Variable visit : node -> node * result unit.

(** Walking the entries keeps every name, keeps every file, and leaves a
    subdirectory either as it was or as [visit] made it. *)
Lemma walk_entries_lookup (d : directory) (name : string) :
  match fs.lookup name d with
  | None => fs.lookup name (walk_entries visit d).1 = None
  | Some x =>
      fs.lookup name (walk_entries visit d).1 = Some x
      \/ ((exists sub, x = Dir sub)
          /\ fs.lookup name (walk_entries visit d).1 = Some (visit x).1)
  end.
Proof.
  induction d as [| [n y] rest IH]; simpl; [done |].
  destruct y as [f | sub].
  - destruct (walk_entries visit rest) as [rest' r]. simpl in *.
    destruct (String.eqb n name); [by left | exact IH].
  - destruct (visit (Dir sub)) as [x' [[] | e]] eqn:Hvisit.
    + destruct (walk_entries visit rest) as [rest' r']. simpl in *.
      destruct (String.eqb n name); [| exact IH].
      right. split; [by exists sub | by rewrite Hvisit].
    + simpl. destruct (String.eqb n name).
      * right. split; [by exists sub | by rewrite Hvisit].
      * destruct (fs.lookup name rest); [by left | done].
Qed.

Lemma walk_entries_same_index (d : directory) :
  same_index d (walk_entries visit d).1.
Proof.
  unfold same_index. pose proof (walk_entries_lookup d INDEX_FILE) as H.
  destruct (fs.lookup INDEX_FILE d) as [[f | sub] |]; [| done | done].
  destruct H as [H | [[sub [=]] _]]. exact H.
Qed.

Lemma put_absent (name : string) (x : node) (d : directory) :
  fs.lookup name d = None -> put name x d = d ++ [(name, x)].
Proof.
  induction d as [| [n y] rest IH]; simpl; [done |].
  destruct (String.eqb n name); [done |]. intros H. by rewrite IH.
Qed.

(** A file added at the end of the listing is carried through the walk. *)
Lemma walk_entries_app_file (d : directory) (name : string) (f : file) :
  walk_entries visit (d ++ [(name, File f)])
  = ((walk_entries visit d).1 ++ [(name, File f)], (walk_entries visit d).2).
Proof.
  induction d as [| [n y] rest IH]; simpl; [done |].
  destruct y as [g | sub].
  - rewrite IH. by destruct (walk_entries visit rest).
  - destruct (visit (Dir sub)) as [x' [[] | e]]; [| done].
    rewrite IH. by destruct (walk_entries visit rest).
Qed.

End WalkEntries.

Section Walk.

Context {floats : Py.Float} {resolver : osr.Resolver}.

Lemma create_index_fresh (g : gdal.config) (d : directory) :
  fs.lookup INDEX_FILE d = None ->
  exists rows, (create_index g d).1 = put INDEX_FILE (File (text_file (index_text rows))) d.
Proof.
  intros Hnone. unfold create_index. rewrite Hnone.
  destruct (index_files g 0 _) as [rows r]. exists rows. simpl. apply put_put.
Qed.

(** Where the walk creates an index, it goes on as [os.walk] does: through
    the subdirectories of the directory that [create_index] left. *)
Lemma walk_after_create_index (g : gdal.config) (d indexed : directory) :
  tif_files d <> [] ->
  exists_ INDEX_FILE d = false ->
  create_index g d = (indexed, Ok ()) ->
  index_directories_recursively g (Dir d)
  = let '(walked, r) := walk_entries (index_directories_recursively g) indexed in
    (Dir walked, r).
Proof.
  intros Htif Hexists Hcreate.
  assert (Hnone : fs.lookup INDEX_FILE d = None).
  { unfold exists_ in Hexists. by destruct (fs.lookup INDEX_FILE d). }
  destruct (create_index_fresh g d Hnone) as [rows Hindexed].
  rewrite Hcreate in Hindexed. simpl in Hindexed. subst indexed.
  cbn [index_directories_recursively].
  destruct (tif_files d) as [| tif rest]; [done |].
  rewrite Hexists, Hcreate.
  assert (Hwalked : fs.lookup INDEX_FILE
            (walk_entries (index_directories_recursively g) d).1 = None).
  { pose proof (walk_entries_lookup (index_directories_recursively g) d INDEX_FILE) as H.
    by rewrite Hnone in H. }
  rewrite (put_absent _ _ d Hnone), walk_entries_app_file.
  destruct (walk_entries (index_directories_recursively g) d) as [walked r].
  simpl in *. unfold with_index. rewrite <- (put_absent _ _ d Hnone), lookup_put_eq.
  by rewrite (put_absent _ _ walked Hwalked).
Qed.

(** One step of the walk at a directory: what becomes of its entries. *)
Lemma walk_directory (g : gdal.config) (d : directory) :
  exists d' : directory,
    (index_directories_recursively g (Dir d)).1 = Dir d'
    /\ (forall name sub,
          fs.lookup name d = Some (Dir sub) ->
          fs.lookup name d' = Some (Dir sub)
          \/ fs.lookup name d' = Some (index_directories_recursively g (Dir sub)).1)
    /\ (tif_files d = [] \/ exists_ INDEX_FILE d = true -> same_index d d').
Proof.
  pose proof (walk_entries_lookup (index_directories_recursively g) d) as Hwalk.
  pose proof (walk_entries_same_index (index_directories_recursively g) d) as Hsame.
  assert (Hskip : exists d',
    (let '(walked, r) := walk_entries (index_directories_recursively g) d in
     (Dir (with_index [] walked), r)).1 = Dir d'
    /\ (forall name sub,
          fs.lookup name d = Some (Dir sub) ->
          fs.lookup name d' = Some (Dir sub)
          \/ fs.lookup name d' = Some (index_directories_recursively g (Dir sub)).1)
    /\ same_index d d').
  { destruct (walk_entries (index_directories_recursively g) d) as [walked r].
    exists walked. simpl in *. split; [done |]. split; [| done].
    intros name sub Hsub. specialize (Hwalk name). rewrite Hsub in Hwalk.
    destruct Hwalk as [H | [_ H]]; auto. }
  cbn [index_directories_recursively].
  destruct (tif_files d) as [| tif rest] eqn:Htif.
  { destruct Hskip as (d' & H1 & H2 & H3). exists d'. auto. }
  destruct (exists_ INDEX_FILE d) eqn:Hexists.
  { destruct Hskip as (d' & H1 & H2 & H3). exists d'. auto. }
  assert (Hnone : fs.lookup INDEX_FILE d = None).
  { unfold exists_ in Hexists. by destruct (fs.lookup INDEX_FILE d). }
  destruct (create_index_fresh g d Hnone) as [rows Hindexed].
  assert (Hne : forall name sub, fs.lookup name d = Some (Dir sub) -> INDEX_FILE <> name).
  { intros name sub Hsub <-. congruence. }
  destruct (create_index g d) as [indexed [[] | e]]; simpl in Hindexed; subst indexed.
  - destruct (walk_entries (index_directories_recursively g) d) as [walked r].
    unfold with_index. rewrite lookup_put_eq. simpl.
    eexists. split; [reflexivity |]. split.
    + intros name sub Hsub. rewrite lookup_put_ne by eauto.
      specialize (Hwalk name). rewrite Hsub in Hwalk. simpl in Hwalk.
      destruct Hwalk as [H | [_ H]]; auto.
    + intros [H | H]; congruence.
  - simpl. eexists. split; [reflexivity |]. split.
    + intros name sub Hsub. left. rewrite lookup_put_ne by eauto. exact Hsub.
    + intros [H | H]; congruence.
Qed.

(** Every directory of the tree is still there after the walk, and one that
    had no [.tif] file or had an index entry has the index it had. *)
Lemma walk_same_index (g : gdal.config) (root : node) :
  forall (path : list string) (d : directory),
    subdir path root = Some d ->
    exists d' : directory,
      subdir path (index_directories_recursively g root).1 = Some d'
      /\ (tif_files d = [] \/ exists_ INDEX_FILE d = true -> same_index d d').
Proof.
  induction root as [f | d0 IH] using node_ind_entries; intros path d Hd.
  - by destruct path.
  - destruct (walk_directory g d0) as (d1 & Hd1 & Hsubs & Hskip).
    rewrite Hd1. destruct path as [| name path]; simpl in Hd |- *.
    + injection Hd as <-. eauto.
    + destruct (fs.lookup name d0) as [x |] eqn:Hx; [| done].
      destruct x as [f | sub]; [by destruct path |].
      destruct (Hsubs name sub Hx) as [-> | ->].
      * exists d. split; [done |]. intros _. apply same_index_refl.
      * by apply (lookup_Forall
            (fun x => forall path d,
               subdir path x = Some d ->
               exists d', subdir path (index_directories_recursively g x).1 = Some d'
                 /\ (tif_files d = [] \/ exists_ INDEX_FILE d = true -> same_index d d'))
            d0 name (Dir sub) IH Hx).
Qed.

(** *** A second walk *)

Lemma settled_Dir (d : directory) :
  settled (Dir d) <->
  (tif_files d = [] \/ exists_ INDEX_FILE d = true) /\ all_settled d.
Proof.
  cbn [settled]. apply and_iff_compat_l. unfold all_settled.
  induction d as [| [n y] rest IH]; [by split; [constructor |] |].
  rewrite Forall_cons, <- IH. done.
Qed.

Lemma filenames_app (d1 d2 : directory) :
  filenames (d1 ++ d2) = filenames d1 ++ filenames d2.
Proof.
  induction d1 as [| [n [f | sub]] rest IH]; simpl; [done | by rewrite IH | done].
Qed.

(** A walk of the entries that ends normally leaves every file, and every
    subdirectory as its own walk left it. *)
Lemma walk_entries_Ok (visit : node -> node * result unit) (d walked : directory) :
  walk_entries visit d = (walked, Ok ()) ->
  Forall2 (fun entry entry' =>
             entry'.1 = entry.1
             /\ match entry.2 with
                | File _ => entry'.2 = entry.2
                | Dir _ => visit entry.2 = (entry'.2, Ok ())
                end) d walked.
Proof.
  revert walked. induction d as [| [n y] rest IH]; intros walked; simpl.
  - intros [= <-]. constructor.
  - destruct y as [f | sub].
    + destruct (walk_entries visit rest) as [rest' r]. intros [= <- ->].
      constructor; [done | by apply IH].
    + destruct (visit (Dir sub)) as [x' [[] | e]] eqn:Hvisit; [| done].
      destruct (walk_entries visit rest) as [rest' r]. intros [= <- ->].
      constructor; [done | by apply IH].
Qed.

(** The walk changes nothing in a settled tree. *)
Lemma walk_settled (g : gdal.config) (root : node) :
  settled root -> index_directories_recursively g root = (root, Ok ()).
Proof.
  induction root as [f | d IH] using node_ind_entries; [done |].
  rewrite settled_Dir. intros [Hskip Hall].
  assert (Hwalk : walk_entries (index_directories_recursively g) d = (d, Ok ())).
  { clear Hskip. induction d as [| [n y] rest IHrest]; [done |].
    apply Forall_cons in IH as [IHy IH]. apply Forall_cons in Hall as [Hy Hall].
    simpl in *. rewrite (IHrest IH Hall).
    destruct y as [f | sub]; [done |]. by rewrite (IHy Hy). }
  cbn [index_directories_recursively]. rewrite Hwalk.
  destruct (tif_files d) as [| tif rest]; [done |].
  destruct Hskip as [Hskip | ->]; done.
Qed.

(** A walk that ends normally leaves a settled tree. *)
Lemma walk_Ok_settled (g : gdal.config) (root root' : node) :
  index_directories_recursively g root = (root', Ok ()) -> settled root'.
Proof.
  revert root'. induction root as [f | d IH] using node_ind_entries; intros root'.
  - by intros [= <-].
  - assert (Hwalked : forall walked,
      walk_entries (index_directories_recursively g) d = (walked, Ok ()) ->
      all_settled walked /\ filenames walked = filenames d
      /\ (exists_ INDEX_FILE d = true -> exists_ INDEX_FILE walked = true)).
    { intros walked Hwalk. split; [| split].
      - apply walk_entries_Ok in Hwalk. unfold all_settled.
        induction Hwalk as [| [n y] [n' y'] rest rest' [_ Hy] _ IHrest];
          [constructor |].
        apply Forall_cons in IH as [IHy IH]. simpl in *.
        constructor; [| by apply IHrest].
        destruct y as [f | sub]; simpl; [by subst y' | by apply IHy].
      - clear IH. apply walk_entries_Ok in Hwalk.
        induction Hwalk as [| [n y] [n' y'] rest rest' [Hn Hy] _ IHrest]; [done |].
        simpl in *. subst n'. destruct y as [f | sub].
        + subst y'. by rewrite IHrest.
        + destruct (walk_directory g sub) as (sub' & Hsub' & _).
          rewrite Hy in Hsub'. simpl in Hsub'. subst y'. exact IHrest.
      - pose proof (walk_entries_same_index (index_directories_recursively g) d) as Hsame.
        rewrite Hwalk in Hsame. unfold same_index, exists_ in *. simpl in Hsame.
        destruct (fs.lookup INDEX_FILE d) as [[f | sub] |] eqn:Hd; [| | done].
        + by rewrite Hsame.
        + intros _.
          pose proof (walk_entries_lookup (index_directories_recursively g) d INDEX_FILE) as H.
          rewrite Hd, Hwalk in H. simpl in H. by destruct H as [-> | [_ ->]]. }
    cbn [index_directories_recursively].
    destruct (tif_files d) as [| tif rest] eqn:Htif.
    { destruct (walk_entries _ d) as [walked r] eqn:Hwalk. intros [= <- ->].
      destruct (Hwalked walked eq_refl) as (Hall & Hfiles & _).
      apply settled_Dir. split; [| done]. left.
      unfold with_index. simpl. unfold tif_files in *. by rewrite Hfiles. }
    destruct (exists_ INDEX_FILE d) eqn:Hexists.
    { destruct (walk_entries _ d) as [walked r] eqn:Hwalk. intros [= <- ->].
      destruct (Hwalked walked eq_refl) as (Hall & _ & Hindex).
      apply settled_Dir. split; [| done]. right. by apply Hindex. }
    assert (Hnone : fs.lookup INDEX_FILE d = None).
    { unfold exists_ in Hexists. by destruct (fs.lookup INDEX_FILE d). }
    destruct (create_index_fresh g d Hnone) as [rows Hindexed].
    destruct (create_index g d) as [indexed [[] | e]]; [| done].
    simpl in Hindexed. subst indexed.
    destruct (walk_entries _ d) as [walked r] eqn:Hwalk. intros [= <- ->].
    destruct (Hwalked walked eq_refl) as (Hall & _ & _).
    unfold with_index. rewrite lookup_put_eq.
    assert (Hwalked_none : fs.lookup INDEX_FILE walked = None).
    { pose proof (walk_entries_lookup (index_directories_recursively g) d INDEX_FILE) as H.
      by rewrite Hnone, Hwalk in H. }
    rewrite (put_absent _ _ _ Hwalked_none).
    apply settled_Dir. split.
    + right. unfold exists_. rewrite <- (put_absent _ _ _ Hwalked_none).
      by rewrite lookup_put_eq.
    + unfold all_settled in *. apply Forall_app. split; [done |]. by repeat constructor.
Qed.

(** C7. The tree walk leaves alone every directory that already holds an
    index file: after the walk, however it ends and whatever rasters the
    directory holds, the directory still holds that same file.  Hence a
    second walk over the tree that a first walk left leaves every index file
    as the first walk left it; and when the first walk ended normally, the
    second changes nothing at all. *)
Theorem index_directories_recursively_idempotent (g : gdal.config) (root : node) :
  let once := (index_directories_recursively g root).1 in
  (forall (path : list string) (d : directory) (index_file : file),
     subdir path root = Some d ->
     fs.lookup INDEX_FILE d = Some (File index_file) ->
     exists d' : directory,
       subdir path once = Some d'
       /\ fs.lookup INDEX_FILE d' = Some (File index_file))
  /\ (forall (path : list string) (d : directory) (index_file : file),
        subdir path once = Some d ->
        fs.lookup INDEX_FILE d = Some (File index_file) ->
        exists d' : directory,
          subdir path (index_directories_recursively g once).1 = Some d'
          /\ fs.lookup INDEX_FILE d' = Some (File index_file))
  /\ ((index_directories_recursively g root).2 = Ok () ->
      index_directories_recursively g once = (once, Ok ())).
Proof.
  assert (Hkeep : forall root path d index_file,
    subdir path root = Some d ->
    fs.lookup INDEX_FILE d = Some (File index_file) ->
    exists d', subdir path (index_directories_recursively g root).1 = Some d'
               /\ fs.lookup INDEX_FILE d' = Some (File index_file)).
  { intros root0 path d index_file Hd Hindex.
    destruct (walk_same_index g root0 path d Hd) as (d' & Hd' & Hsame).
    exists d'. split; [done |].
    unfold same_index in Hsame. rewrite Hindex in Hsame. apply Hsame.
    right. unfold exists_. by rewrite Hindex. }
  intros once. split; [apply Hkeep |]. split; [apply Hkeep |].
  intros Hok. apply walk_settled. apply (walk_Ok_settled g root).
  subst once. destruct (index_directories_recursively g root) as [root' r].
  simpl in *. by subst r.
Qed.

(** C8. A directory of the tree with no file whose name ends in [.tif] and
    with no index file has no index file after the walk: the walk never
    writes an index there. *)
Theorem index_directories_recursively_no_empty_index (g : gdal.config)
    (root : node) (path : list string) (d : directory) :
  subdir path root = Some d ->
  tif_files d = [] ->
  fs.lookup INDEX_FILE d = None ->
  exists d' : directory,
    subdir path (index_directories_recursively g root).1 = Some d'
    /\ fs.lookup INDEX_FILE d' = None.
Proof.
  intros Hd Htif Hnone.
  destruct (walk_same_index g root path d Hd) as (d' & Hd' & Hsame).
  exists d'. split; [done |].
  unfold same_index in Hsame. rewrite Hnone in Hsame. apply Hsame. by left.
Qed.

End Walk.

(** ** Further properties of the script *)

(** *** The spatial reference identifier *)

Section Srid.

Context {resolver : osr.Resolver}.

(** X1. [get_epsg_code] never returns the empty string, and it returns a
    code other than ["Unknown"] exactly when the dataset has a projection
    whose spatial reference is projected or geographic and carries that code,
    not empty, as its authority code. *)
Theorem get_epsg_code_authority (dataset : Dataset) (code : string) :
  code <> "Unknown" ->
  get_epsg_code dataset <> EmptyString
  /\ (get_epsg_code dataset = code <->
      GetProjection dataset <> EmptyString
      /\ osr.IsProjected (osr.from_wkt (GetProjection dataset))
         || osr.IsGeographic (osr.from_wkt (GetProjection dataset)) = true
      /\ osr.GetAttrValue_AUTHORITY_1 (osr.from_wkt (GetProjection dataset)) = Some code
      /\ code <> EmptyString).
Proof.
  intros Hcode. unfold get_epsg_code.
  destruct (String.eqb_spec (GetProjection dataset) EmptyString) as [Hp | Hp].
  { split; [done |]. split; [by intros <- | by intros [? _]]. }
  destruct (_ || _).
  2: { split; [done |]. split; [by intros <- | by intros (_ & ? & _)]. }
  destruct (osr.GetAttrValue_AUTHORITY_1 _) as [found |].
  2: { split; [done |]. split; [by intros <- | by intros (_ & _ & ? & _)]. }
  destruct (String.eqb_spec found EmptyString) as [Hf | Hf].
  - split; [done |]. split; [by intros <- |].
    intros (_ & _ & [= ->] & ?). done.
  - split; [done |]. split.
    + by intros <-.
    + by intros (_ & _ & [= ->] & _).
Qed.

End Srid.

(** *** Rectangle overlap *)

(** X2. [mbr_overlap] does not depend on the order of its two arguments. *)
Theorem mbr_overlap_symmetric (a b : Q * Q * Q * Q) :
  mbr_overlap a b = mbr_overlap b a.
Proof.
  destruct a as [[[a_min_x a_max_x] a_min_y] a_max_y].
  destruct b as [[[b_min_x b_max_x] b_min_y] b_max_y].
  unfold mbr_overlap. f_equal.
  destruct (Qltb a_max_x b_min_x), (Qltb b_max_x a_min_x),
    (Qltb a_max_y b_min_y), (Qltb b_max_y a_min_y); reflexivity.
Qed.

(** X3. A box overlaps itself exactly when its corners are in order: a box
    stored with a minimum above its maximum does not overlap itself. *)
Theorem mbr_overlap_self (a : Q * Q * Q * Q) :
  mbr_overlap a a = true <-> ordered a.
Proof.
  destruct a as [[[min_x max_x] min_y] max_y]. unfold mbr_overlap, ordered.
  rewrite negb_true_iff, !orb_false_iff, !Qltb_ge. tauto.
Qed.

(** X4. Two boxes with ordered corners overlap exactly when some point lies
    in both. *)
Theorem mbr_overlap_common_point (a b : Q * Q * Q * Q) :
  ordered a -> ordered b ->
  (mbr_overlap a b = true <-> exists x y : Q, inside a x y /\ inside b x y).
Proof.
  destruct a as [[[a_min_x a_max_x] a_min_y] a_max_y].
  destruct b as [[[b_min_x b_max_x] b_min_y] b_max_y].
  unfold mbr_overlap, ordered, inside. intros [Hax Hay] [Hbx Hby].
  rewrite negb_true_iff, !orb_false_iff, !Qltb_ge. split.
  - intros [[[H1 H2] H3] H4].
    exists (if Qlt_le_dec a_min_x b_min_x then b_min_x else a_min_x),
      (if Qlt_le_dec a_min_y b_min_y then b_min_y else a_min_y).
    destruct (Qlt_le_dec a_min_x b_min_x), (Qlt_le_dec a_min_y b_min_y);
      repeat split; lra.
  - intros (x & y & Ha & Hb). repeat split; lra.
Qed.

(** *** Building an index *)

Lemma lookup_put_file_not_dir (name : string) (f : file) (d : directory) :
  match fs.lookup name (put name (File f) d) with
  | Some (Dir _) => False
  | _ => True
  end.
Proof. by rewrite lookup_put_eq. Qed.

Lemma rasters_put_index (x : node) (d : directory) :
  rasters (put INDEX_FILE x d) = rasters d.
Proof.
  induction d as [| [n y] rest IH]; [done |]. simpl.
  destruct (String.eqb_spec n INDEX_FILE) as [-> | Hn]; simpl.
  - done.
  - by rewrite IH.
Qed.

Lemma open_put_index (f : file) (d : directory) :
  Forall (fun entry => ~ unopenable entry) d ->
  Forall (fun entry => ~ unopenable entry) (put INDEX_FILE (File f) d).
Proof.
  induction 1 as [| [n y] rest Hy Hrest IH]; simpl.
  - constructor; [| done]. intros [Htif _]. by vm_compute in Htif.
  - destruct (String.eqb_spec n INDEX_FILE) as [-> | Hn].
    + constructor; [| done]. intros [Htif _]. by vm_compute in Htif.
    + by constructor.
Qed.

Section Build.

Context {floats : Py.Float} {resolver : osr.Resolver}.

Lemma index_files_ids (g : gdal.config) (listing : directory) (file_id : Z)
    (i : nat) (row : list string) :
  (index_files g file_id listing).1 !! i = Some row ->
  row !! 0%nat = Some (str_int (file_id + Z.of_nat i)).
Proof.
  revert file_id i. induction listing as [| [filename x] rest IH];
    intros file_id i; simpl; [done |].
  destruct (endswith filename ".tif"); [| apply IH].
  destruct (gdal.Open g x) as [[dataset |] | e]; simpl; [| apply IH | done].
  specialize (IH (file_id + 1)).
  destruct (index_files g (file_id + 1) rest) as [rows r]. simpl in *.
  destruct i as [| i]; simpl.
  - intros [= <-]. unfold index_row.
    destruct (bounding_box dataset) as [[[? ?] ?] ?]. simpl.
    by rewrite Z.add_0_r.
  - intros Hrow. rewrite (IH i Hrow). do 2 f_equal. lia.
Qed.

(** X5. The records of an index are numbered from 0 in the order in which
    they are written: the [ID] field of the record at position [i] is the
    decimal text of [i], also in an index that an exception cut short. *)
Theorem create_index_ids (g : gdal.config) (d d' : directory) (r : result unit) :
  create_index g d = (d', r) ->
  r <> Raise IsADirectoryError ->
  exists rows : list (list string),
    fs.lookup INDEX_FILE d' = Some (File (text_file (index_text rows)))
    /\ forall (i : nat) (row : list string),
         rows !! i = Some row -> row !! 0%nat = Some (str_int (Z.of_nat i)).
Proof.
  intros Hrun Hr. exists (written g d).
  split; [by apply (create_index_written g d d' r) |].
  intros i row Hrow. unfold written in Hrow.
  by rewrite (index_files_ids g _ 0 i row Hrow).
Qed.

(** X6. [create_index] changes nothing in the directory but the index file:
    every other entry is afterwards what it was, however the call ends. *)
Theorem create_index_other_entries (g : gdal.config) (d : directory) (name : string) :
  name <> INDEX_FILE ->
  fs.lookup name (create_index g d).1 = fs.lookup name d.
Proof.
  intros Hname. unfold create_index.
  destruct (index_files g 0 _) as [rows r].
  destruct (fs.lookup INDEX_FILE d) as [[f | sub] |]; simpl; try done;
    by rewrite !lookup_put_ne.
Qed.

(** X7. [create_index] overwrites an index file that is there: the outcome
    and the new index do not depend on what the old index file held. *)
Theorem create_index_overwrites (g : gdal.config) (d : directory) (old1 old2 : file) :
  create_index g (put INDEX_FILE (File old1) d)
  = create_index g (put INDEX_FILE (File old2) d).
Proof.
  unfold create_index. by rewrite !lookup_put_eq, !put_put.
Qed.

Lemma index_files_Ok_rasters (g : gdal.config) (listing : directory) (file_id : Z) :
  (index_files g file_id listing).2 = Ok () ->
  (index_files g file_id listing).1 = numbered file_id (rasters listing).
Proof.
  revert file_id. induction listing as [| [filename x] rest IH]; intros file_id;
    simpl; [done |].
  destruct (endswith filename ".tif"); [| apply IH].
  destruct x as [[size text [dataset |]] | sub]; simpl.
  - specialize (IH (file_id + 1)).
    destruct (index_files g (file_id + 1) rest) as [rows r]. simpl in *.
    intros Hr. by rewrite IH.
  - destruct (gdal.bUseExceptions g); simpl; [done | apply IH].
  - destruct (gdal.bUseExceptions g); simpl; [done | apply IH].
Qed.

(** X8. When GDAL opens every candidate of the directory, [create_index]
    ends normally, in either error mode, and the index it leaves holds one
    record for each raster whose name ends in [.tif], in listing order and
    numbered from 0; for a directory without such a file, the header
    alone. *)
Theorem create_index_complete (g : gdal.config) (d : directory) :
  Forall (fun entry => ~ unopenable entry) d ->
  (forall sub, fs.lookup INDEX_FILE d <> Some (Dir sub)) ->
  create_index g d
  = (put INDEX_FILE (File (text_file (index_text (numbered 0 (rasters d))))) d,
     Ok ()).
Proof.
  intros Hopen Hfile. unfold create_index.
  rewrite (index_files_all_open g _ 0 (open_put_index _ d Hopen)).
  rewrite rasters_put_index, put_put.
  destruct (fs.lookup INDEX_FILE d) as [[f | sub] |]; try done.
  by destruct (Hfile sub).
Qed.

(** X9. With GDAL exceptions enabled, as the module enables them,
    [create_index] never skips a candidate: when the directory lists a name
    ending in [.tif] that GDAL cannot open, and its index entry is no
    directory, so that the listing is reached, the call ends with a
    [RuntimeError]. *)
Theorem create_index_never_skips (d : directory) :
  Exists unopenable d ->
  (forall sub, fs.lookup INDEX_FILE d <> Some (Dir sub)) ->
  (create_index imported d).2 = Raise RuntimeError.
Proof.
  intros Hbad Hfile. unfold create_index.
  assert (Hopened : Exists unopenable (put INDEX_FILE (File (text_file EmptyString)) d)).
  { clear -Hbad.
    induction Hbad as [[n y] rest [Htif Hy] | [n y] rest Hrest IH]; simpl in *.
    - destruct (String.eqb_spec n INDEX_FILE) as [-> | Hn]; [by vm_compute in Htif |].
      by left.
    - destruct (String.eqb n INDEX_FILE); by right. }
  pose proof (index_files_unopenable _ 0 Hopened) as Hraise.
  destruct (index_files imported 0 _) as [rows r]. simpl in Hraise. subst r.
  destruct (fs.lookup INDEX_FILE d) as [[f | sub] |]; try done.
  by destruct (Hfile sub).
Qed.

Section ReadBack.

Hypothesis float_str_no_cr : forall x : Q, no_cr (float_str x) = true.
Hypothesis authority_no_cr : forall wkt code : string,
  osr.GetAttrValue_AUTHORITY_1 (osr.from_wkt wkt) = Some code -> no_cr code = true.

(** X10. An index built in a directory with no carriage return in a file
    name, by a call that did not fail on the index entry being a directory,
    and of which no field written is larger than the limit of the reader, is
    read back as it was written: [csv.DictReader] over the index file in
    text mode yields one dictionary for each record written, in order,
    holding each field under its column of the header, and raises
    nothing. *)
Theorem create_index_read_back (g : gdal.config) (d d' : directory)
    (r : result unit) :
  Forall (fun name => no_cr name = true) (listdir d) ->
  Forall (Forall (fun f => fits f = true)) (written g d) ->
  create_index g d = (d', r) ->
  r <> Raise IsADirectoryError ->
  exists (index_file : file) (rows : list (list string)),
    fs.lookup INDEX_FILE d' = Some (File index_file)
    /\ index_file = text_file (index_text rows)
    /\ Forall (fun row => length row = 9%nat) rows
    /\ csv.DictReader (readlines index_file)
       = (map (fun row => list_to_map (zip header (Str <$> row))) rows, None).
Proof.
  intros Hnames Hfit Hrun Hr.
  exists (text_file (index_text (written g d))), (written g d).
  split; [by apply (create_index_written g d d' r) |]. split; [done |].
  assert (Hrows : Forall footprint_row (written g d)) by apply index_files_footprint.
  split.
  - eapply Forall_impl; [exact Hrows |].
    by intros row (? & ? & ? & ? & ? & ? & ? & ? & ->).
  - rewrite (create_index_round_trip float_str_no_cr authority_no_cr g d
               Hnames Hfit).
    f_equal. apply map_ext_Forall.
    eapply Forall_impl; [exact Hrows |].
    intros row (id & filename & size & srid & min_x & min_y & max_x & max_y & ->).
    apply map_eq. intros key. unfold csv.row_dict. simpl.
    rewrite !lookup_insert. repeat case_decide; simplify_eq; done.
Qed.

End ReadBack.

End Build.

(** *** Querying an index *)

Section Answers.

Context {engine : ogr.Engine}.

Lemma scan_sublist (query_geom : option ogr.Geometry)
    (rows : list (gmap string Py.value)) (found result : list Py.value) :
  scan query_geom rows found = Ok result ->
  exists hits : list (gmap string Py.value),
    sublist hits rows
    /\ exists names : list Py.value,
         result = found ++ names
         /\ Forall2 (fun row name => row !! "FileName" = Some name) hits names.
Proof.
  revert found. induction rows as [| row rows IH]; intros found; simpl.
  - intros [= <-]. exists []. split; [constructor |]. exists [].
    split; [by rewrite app_nil_r | constructor].
  - unfold getitem. destruct (row !! "Geometry4326") as [v |]; simpl; [| done].
    destruct (geometry_from_wkt v) as [file_geom | e]; simpl; [| done].
    destruct (intersects query_geom file_geom) as [[] | e]; simpl; [| | done].
    + destruct (row !! "FileName") as [name |] eqn:Hname; simpl; [| done].
      intros Hscan. destruct (IH _ Hscan) as (hits & Hsub & names & -> & Hnames).
      exists (row :: hits). split; [by constructor |].
      exists (name :: names). split; [by rewrite <- app_assoc |]. by constructor.
    + intros Hscan. destruct (IH _ Hscan) as (hits & Hsub & names & -> & Hnames).
      exists hits. split; [by constructor |]. by exists names.
Qed.

(** X12. Every name that [query_index] returns is the [FileName] entry of a
    row of the index, and the names come in the order of their rows, at
    most one for each row. *)
Theorem query_index_names_from_index (d : directory) (query_geometry : string)
    (index_file : file) (result : list Py.value) :
  fs.lookup INDEX_FILE d = Some (File index_file) ->
  query_index d query_geometry = Ok result ->
  exists hits : list (gmap string Py.value),
    sublist hits (csv.DictReader (readlines index_file)).1
    /\ Forall2 (fun row name => row !! "FileName" = Some name) hits result.
Proof.
  intros Hfile. unfold query_index. rewrite Hfile.
  destruct (ogr.returned _) as [query_geom | e]; simpl; [| done].
  destruct (csv.DictReader (readlines index_file)) as [rows stopped]. simpl.
  destruct (scan query_geom rows []) as [found | e] eqn:Hscan; simpl; [| done].
  destruct stopped; [done |]. intros [= <-].
  destruct (scan_sublist _ _ _ _ Hscan) as (hits & Hsub & names & -> & Hnames).
  by exists hits.
Qed.

Lemma scan_Ok_parsed (query_geom : option ogr.Geometry)
    (rows : list (gmap string Py.value)) (found result : list Py.value) :
  scan query_geom rows found = Ok result ->
  Forall (fun row => exists (wkt : string) (g : ogr.Geometry),
            row !! "Geometry4326" = Some (Str wkt)
            /\ ogr.CreateGeometryFromWkt wkt = ogr.Geometry_ g) rows
  /\ (rows <> [] -> exists q, query_geom = Some q).
Proof.
  revert found. induction rows as [| row rows IH]; intros found; simpl.
  - intros _. split; [constructor | done].
  - unfold getitem. destruct (row !! "Geometry4326") as [[wkt |] |] eqn:Hrow;
      simpl; [| done | done].
    destruct (ogr.CreateGeometryFromWkt wkt) as [g | |] eqn:Hwkt; simpl;
      [| by destruct query_geom | done].
    destruct query_geom as [q |]; simpl; [| done].
    intros Hscan.
    assert (Hrest : exists found', scan (Some q) rows found' = Ok result).
    { destruct (ogr.Intersects q g); [| eauto].
      destruct (row !! "FileName"); simpl in Hscan; [eauto | done]. }
    destruct Hrest as [found' Hrest]. destruct (IH _ Hrest) as [Hall _].
    split; [| eauto]. constructor; [| done]. eauto.
Qed.

(** X13. [query_index] skips no row that it cannot read: when it returns a
    list, every row of the index has a [Geometry4326] entry that the engine
    reads as a geometry, and, unless the index has no row, the query
    geometry was read as a geometry too. *)
Theorem query_index_reads_every_row (d : directory) (query_geometry : string)
    (index_file : file) (result : list Py.value) :
  fs.lookup INDEX_FILE d = Some (File index_file) ->
  query_index d query_geometry = Ok result ->
  let rows := (csv.DictReader (readlines index_file)).1 in
  Forall (fun row => exists (wkt : string) (g : ogr.Geometry),
            row !! "Geometry4326" = Some (Str wkt)
            /\ ogr.CreateGeometryFromWkt wkt = ogr.Geometry_ g) rows
  /\ (rows <> [] ->
      exists q, ogr.CreateGeometryFromJson query_geometry = ogr.Geometry_ q).
Proof.
  intros Hfile. unfold query_index. rewrite Hfile.
  destruct (ogr.CreateGeometryFromJson query_geometry) as [q | |] eqn:Hq; simpl;
    [| | done];
    (destruct (csv.DictReader (readlines index_file)) as [rows stopped]; simpl;
     match goal with
     | |- context [scan ?g rows []] =>
         destruct (scan g rows []) as [found | e] eqn:Hscan; simpl; [| done];
         intros _; destruct (scan_Ok_parsed _ _ _ _ Hscan) as [Hall Hgeom]
     end; split; [done |]; intros Hne).
  - eauto.
  - by destruct (Hgeom Hne).
Qed.

End Answers.

(** *** The limit of the reader *)

Section Limit.

Context {engine : ogr.Engine}.

(** X19. An index with a field larger than the limit of the reader cannot
    be queried.  Take an index file as [create_index] writes it, with rows
    under the header, no field of which holds a carriage return; let the
    rows before one row be rows that the reader takes (not empty, no field
    larger than the limit), and let that row hold, after fields that the
    reader takes, a field of more than [csv.field_limit] ordinary characters
    (no delimiter, quote or line break).  Then [query_index] raises,
    whatever the query geometry: it returns no list, not even the names of
    the rows before. *)
Theorem query_index_field_over_limit (d : directory) (query_geometry : string)
    (rows : list (list string)) (before : list string) (f : string)
    (after : list string) (rows' : list (list string)) :
  fs.lookup INDEX_FILE d
    = Some (File (text_file
                    (index_text (rows ++ (before ++ f :: after) :: rows')))) ->
  Forall (Forall (fun f => no_cr f = true))
    (rows ++ (before ++ f :: after) :: rows') ->
  Forall (Forall (fun f => fits f = true)) rows ->
  Forall (fun row => row <> []) rows ->
  Forall (fun f => fits f = true) before ->
  csv.any_special f = false ->
  csv.field_limit < Z.of_nat (String.length f) ->
  exists e : exn, query_index d query_geometry = Raise e.
Proof.
  intros Hfile Hcr Hrows Hnonempty Hbefore Hplain Hover.
  apply (query_index_stopped d query_geometry _ csv_Error Hfile).
  by rewrite (index_text_over_limit rows before f after rows').
Qed.

End Limit.

(** *** Walking a tree *)

Lemma Forall2_lookup_entry (R : node -> node -> Prop) (d walked : directory)
    (name : string) (x : node) :
  Forall2 (fun entry entry' => entry'.1 = entry.1 /\ R entry.2 entry'.2) d walked ->
  fs.lookup name d = Some x ->
  exists x', fs.lookup name walked = Some x' /\ R x x'.
Proof.
  induction 1 as [| [n y] [n' y'] rest rest' [Hn Hy] _ IH]; simpl; [done |].
  simpl in Hn, Hy. subst n'.
  destruct (String.eqb n name); [| exact IH].
  intros [= <-]. eauto.
Qed.

Lemma all_open_Dir (d : directory) :
  all_open (Dir d) <->
  Forall (fun entry => ~ unopenable entry) d
  /\ Forall (fun entry => all_open entry.2) d.
Proof.
  cbn [all_open]. apply and_iff_compat_l.
  induction d as [| [n y] rest IH]; [by split; [constructor |] |].
  rewrite Forall_cons, <- IH. done.
Qed.

Lemma settled_subdir (path : list string) (root : node) (d : directory) :
  settled root -> subdir path root = Some d ->
  tif_files d = [] \/ exists_ INDEX_FILE d = true.
Proof.
  revert root. induction path as [| name path IH]; intros [f | d0] Hroot;
    try done; apply settled_Dir in Hroot as [Hd0 Hall]; simpl.
  - by intros [= <-].
  - destruct (fs.lookup name d0) as [x |] eqn:Hx; [| done].
    apply IH. exact (lookup_Forall settled d0 name x Hall Hx).
Qed.

Section Tree.

Context {floats : Py.Float} {resolver : osr.Resolver}.

Lemma walk_directory_files (g : gdal.config) (d d' : directory)
    (name : string) (f : file) :
  (index_directories_recursively g (Dir d)).1 = Dir d' ->
  fs.lookup name d = Some (File f) ->
  fs.lookup name d' = Some (File f).
Proof.
  intros Hwalk Hf.
  assert (Hwalked : fs.lookup name
            (walk_entries (index_directories_recursively g) d).1 = Some (File f)).
  { pose proof (walk_entries_lookup (index_directories_recursively g) d name) as H.
    rewrite Hf in H. by destruct H as [H | [[sub [=]] _]]. }
  cbn [index_directories_recursively] in Hwalk.
  destruct (walk_entries (index_directories_recursively g) d) as [walked r].
  simpl in Hwalked.
  destruct (tif_files d) as [| tif rest]; [by injection Hwalk as <- |].
  destruct (exists_ INDEX_FILE d) eqn:Hexists; [by injection Hwalk as <- |].
  assert (Hnone : fs.lookup INDEX_FILE d = None).
  { unfold exists_ in Hexists. by destruct (fs.lookup INDEX_FILE d). }
  assert (Hname : INDEX_FILE <> name) by (intros <-; congruence).
  destruct (create_index_fresh g d Hnone) as [rows Hindexed].
  destruct (create_index g d) as [indexed [[] | e]]; simpl in *; subst indexed;
    injection Hwalk as <-.
  - unfold with_index. rewrite lookup_put_eq. by rewrite lookup_put_ne.
  - by rewrite lookup_put_ne.
Qed.

(** X14. The tree walk changes and removes no file: a file of any directory
    of the tree, under any name, is in that directory with the same content
    after the walk, however the walk ends. *)
Theorem index_directories_recursively_keeps_files (g : gdal.config) (root : node)
    (path : list string) (d : directory) (name : string) (f : file) :
  subdir path root = Some d ->
  fs.lookup name d = Some (File f) ->
  exists d' : directory,
    subdir path (index_directories_recursively g root).1 = Some d'
    /\ fs.lookup name d' = Some (File f).
Proof.
  revert path. induction root as [f0 | d0 IH] using node_ind_entries;
    intros path Hd Hf.
  - by destruct path.
  - destruct (walk_directory g d0) as (d1 & Hd1 & Hsubs & _).
    rewrite Hd1. destruct path as [| step path]; simpl in Hd |- *.
    + injection Hd as <-. exists d1. split; [done |].
      by apply (walk_directory_files g d0 d1).
    + destruct (fs.lookup step d0) as [x |] eqn:Hx; [| done].
      destruct x as [f1 | sub]; [by destruct path |].
      destruct (Hsubs step sub Hx) as [-> | ->]; [by exists d |].
      by apply (lookup_Forall
                  (fun x => forall path,
                     subdir path x = Some d -> fs.lookup name d = Some (File f) ->
                     exists d', subdir path (index_directories_recursively g x).1
                                = Some d'
                       /\ fs.lookup name d' = Some (File f))
                  d0 step (Dir sub) IH Hx).
Qed.

(** X15. After a walk that ended normally, every directory of the tree
    that holds a file whose name ends in [.tif] holds an index entry. *)
Theorem index_directories_recursively_indexes_all (g : gdal.config)
    (root root' : node) (path : list string) (d' : directory) :
  index_directories_recursively g root = (root', Ok ()) ->
  subdir path root' = Some d' ->
  tif_files d' <> [] ->
  exists_ INDEX_FILE d' = true.
Proof.
  intros Hwalk Hd' Htif.
  destruct (settled_subdir path root' d' (walk_Ok_settled g root root' Hwalk) Hd');
    done.
Qed.

Lemma walk_directory_Ok (g : gdal.config) (d : directory) (root' : node) :
  index_directories_recursively g (Dir d) = (root', Ok ()) ->
  exists d' : directory,
    root' = Dir d'
    /\ (tif_files d <> [] -> fs.lookup INDEX_FILE d = None ->
        fs.lookup INDEX_FILE d'
        = Some (File (text_file (index_text (numbered 0 (rasters d))))))
    /\ (forall name sub,
          fs.lookup name d = Some (Dir sub) ->
          exists x', fs.lookup name d' = Some x'
            /\ index_directories_recursively g (Dir sub) = (x', Ok ())).
Proof.
  assert (Hsubs : forall walked,
    walk_entries (index_directories_recursively g) d = (walked, Ok ()) ->
    forall name sub, fs.lookup name d = Some (Dir sub) ->
    exists x', fs.lookup name walked = Some x'
      /\ index_directories_recursively g (Dir sub) = (x', Ok ())).
  { intros walked Hwalk name sub Hsub. apply walk_entries_Ok in Hwalk.
    eapply (Forall2_lookup_entry
              (fun x x' => match x with
                           | File _ => x' = x
                           | Dir _ => index_directories_recursively g x = (x', Ok ())
                           end) d walked name (Dir sub)) in Hwalk; [| done].
    done. }
  cbn [index_directories_recursively].
  destruct (walk_entries (index_directories_recursively g) d) as [walked r] eqn:Hwalk.
  destruct (tif_files d) as [| tif rest] eqn:Htif.
  { intros [= <- ->]. exists walked. split; [done |]. split; [done |]. by apply Hsubs. }
  destruct (exists_ INDEX_FILE d) eqn:Hexists.
  { intros [= <- ->]. exists walked. split; [done |]. split; [| by apply Hsubs].
    intros _ Hnone. unfold exists_ in Hexists. by rewrite Hnone in Hexists. }
  assert (Hnone : fs.lookup INDEX_FILE d = None).
  { unfold exists_ in Hexists. by destruct (fs.lookup INDEX_FILE d). }
  pose proof (index_files_Ok_rasters g
                (put INDEX_FILE (File (text_file EmptyString)) d) 0) as Hrows.
  unfold create_index. rewrite Hnone.
  destruct (index_files g 0 _) as [rows [[] | e]]; [| done].
  simpl in Hrows. rewrite Hrows by done. rewrite rasters_put_index, put_put.
  intros [= <- ->]. unfold with_index. rewrite lookup_put_eq.
  eexists. split; [done |]. split.
  - intros _ _. apply lookup_put_eq.
  - intros name sub Hsub. rewrite lookup_put_ne by (intros <-; congruence).
    by apply Hsubs.
Qed.

(** X16. In a walk that ended normally, the index created in a directory
    holds the rasters of that directory and nothing else: one record for
    each entry of the directory itself whose name ends in [.tif], in listing
    order and numbered from 0.  No other directory contributes a record. *)
Theorem index_directories_recursively_own_rasters (g : gdal.config)
    (root root' : node) (path : list string) (d : directory) :
  index_directories_recursively g root = (root', Ok ()) ->
  subdir path root = Some d ->
  tif_files d <> [] ->
  fs.lookup INDEX_FILE d = None ->
  exists d' : directory,
    subdir path root' = Some d'
    /\ fs.lookup INDEX_FILE d'
       = Some (File (text_file (index_text (numbered 0 (rasters d))))).
Proof.
  revert root' path. induction root as [f0 | d0 IH] using node_ind_entries;
    intros root' path Hwalk Hd Htif Hnone.
  - by destruct path.
  - destruct (walk_directory_Ok g d0 root' Hwalk) as (d1 & -> & Hindex & Hsubs).
    destruct path as [| step path]; simpl in Hd |- *.
    + injection Hd as <-. exists d1. split; [done |]. by apply Hindex.
    + destruct (fs.lookup step d0) as [x |] eqn:Hx; [| done].
      destruct x as [f1 | sub]; [by destruct path |].
      destruct (Hsubs step sub Hx) as (x' & -> & Hsub).
      by apply (lookup_Forall
                  (fun x => forall root' path,
                     index_directories_recursively g x = (root', Ok ()) ->
                     subdir path x = Some d -> tif_files d <> [] ->
                     fs.lookup INDEX_FILE d = None ->
                     exists d', subdir path root' = Some d'
                       /\ fs.lookup INDEX_FILE d'
                          = Some (File (text_file
                                          (index_text (numbered 0 (rasters d))))))
                  d0 step (Dir sub) IH Hx).
Qed.

Lemma index_files_outcome (g : gdal.config) (listing : directory) (file_id : Z) :
  (index_files g file_id listing).2 = Ok ()
  \/ (index_files g file_id listing).2 = Raise RuntimeError.
Proof.
  revert file_id. induction listing as [| [filename x] rest IH]; intros file_id;
    simpl; [by left |].
  destruct (endswith filename ".tif"); [| apply IH].
  destruct x as [[size text [dataset |]] | sub]; simpl.
  - specialize (IH (file_id + 1)).
    by destruct (index_files g (file_id + 1) rest).
  - destruct (gdal.bUseExceptions g); simpl; [by right | apply IH].
  - destruct (gdal.bUseExceptions g); simpl; [by right | apply IH].
Qed.

Lemma walk_entries_outcome (visit : node -> node * result unit) (d : directory) :
  Forall (fun entry => (visit entry.2).2 = Ok ()
                       \/ (visit entry.2).2 = Raise RuntimeError) d ->
  (walk_entries visit d).2 = Ok ()
  \/ (walk_entries visit d).2 = Raise RuntimeError.
Proof.
  induction 1 as [| [n y] rest Hy _ IH]; simpl; [by left |].
  destruct y as [f | sub].
  - by destruct (walk_entries visit rest).
  - simpl in Hy. destruct (visit (Dir sub)) as [x' [[] | e]]; simpl in *.
    + by destruct (walk_entries visit rest).
    + destruct Hy as [Hy | Hy]; [done | by right].
Qed.

(** X17. The tree walk ends normally or with the [RuntimeError] of a raster
    that GDAL could not open.  Unlike [create_index] called on its own, it
    never fails with [IsADirectoryError]: it writes an index only where
    there is no entry of that name, so the index file it opens for writing
    is never a directory.  (Failures of the operating system, such as
    missing permissions, are outside the file-system model.) *)
Theorem index_directories_recursively_outcome (g : gdal.config) (root : node) :
  (index_directories_recursively g root).2 = Ok ()
  \/ (index_directories_recursively g root).2 = Raise RuntimeError.
Proof.
  induction root as [f | d IH] using node_ind_entries; [by left |].
  pose proof (walk_entries_outcome (index_directories_recursively g) d IH) as Hwalk.
  cbn [index_directories_recursively].
  destruct (walk_entries (index_directories_recursively g) d) as [walked r].
  destruct (tif_files d) as [| tif rest]; [done |].
  destruct (exists_ INDEX_FILE d) eqn:Hexists; [done |].
  assert (Hnone : fs.lookup INDEX_FILE d = None).
  { unfold exists_ in Hexists. by destruct (fs.lookup INDEX_FILE d). }
  unfold create_index. rewrite Hnone.
  pose proof (index_files_outcome g
                (put INDEX_FILE (File (text_file EmptyString)) d) 0) as Hrows.
  destruct (index_files g 0 _) as [rows [[] | e]]; simpl in *; [done |].
  destruct Hrows as [Hrows | Hrows]; [done | by right].
Qed.

Lemma walk_entries_all_Ok (visit : node -> node * result unit) (d : directory) :
  Forall (fun entry => (visit entry.2).2 = Ok ()) d ->
  (walk_entries visit d).2 = Ok ().
Proof.
  induction 1 as [| [n y] rest Hy _ IH]; simpl; [done |].
  destruct y as [f | sub].
  - by destruct (walk_entries visit rest).
  - simpl in Hy. destruct (visit (Dir sub)) as [x' r]. simpl in Hy. subst r.
    by destruct (walk_entries visit rest).
Qed.

(** X18. When GDAL opens every candidate of every directory of the tree,
    the walk ends normally, in either error mode. *)
Theorem index_directories_recursively_all_open (g : gdal.config) (root : node) :
  all_open root -> (index_directories_recursively g root).2 = Ok ().
Proof.
  induction root as [f | d IH] using node_ind_entries; [done |].
  rewrite all_open_Dir. intros [Hopen Hall].
  assert (Hwalk : (walk_entries (index_directories_recursively g) d).2 = Ok ()).
  { apply walk_entries_all_Ok. clear Hopen.
    induction d as [| [n y] rest IHrest]; [constructor |].
    apply Forall_cons in IH as [IHy IH]. apply Forall_cons in Hall as [Hy Hall].
    constructor; [by apply IHy | by apply IHrest]. }
  cbn [index_directories_recursively].
  destruct (walk_entries (index_directories_recursively g) d) as [walked r].
  simpl in Hwalk. subst r.
  destruct (tif_files d) as [| tif rest]; [done |].
  destruct (exists_ INDEX_FILE d) eqn:Hexists; [done |].
  assert (Hnone : fs.lookup INDEX_FILE d = None).
  { unfold exists_ in Hexists. by destruct (fs.lookup INDEX_FILE d). }
  unfold create_index.
  by rewrite (index_files_all_open g _ 0 (open_put_index _ d Hopen)), Hnone.
Qed.

End Tree.

(** ** Scenarios *)

(** The scenarios run with the runtime, the resolver and the engine of
    [Example]. *)
#[local] Existing Instances
  Example.integral_floats Example.wgs84 Example.boxes.

(** The index of scenario A, as [create_index] writes it. *)
Lemma scenario_A_index :
  create_index imported Example.A =
    (Example.A ++ [(INDEX_FILE, File Example.index_A)], Ok ()).
Proof. vm_compute. reflexivity. Qed.

(** The three queries of scenario A. *)
Lemma scenario_A_queries :
  let indexed := (create_index imported Example.A).1 in
  query_index indexed (Example.geojson_point "5" "5") = Ok [Str "r1.tif"]
  /\ query_index indexed (Example.geojson_point "25" "25") = Ok [Str "r2.tif"]
  /\ query_index indexed (Example.geojson_point "15" "15") = Ok [].
Proof. vm_compute. auto. Qed.

(** Scenario X/Y: [X] gets an index with two records, the index of [Y] is
    the one it had, [docs] gets none. *)
Lemma scenario_tree :
  index_directories_recursively imported Example.tree =
    (Dir [("X", Dir (create_index imported Example.A).1);
          ("Y", Dir [("r.tif", Example.tif (Example.north_up 0 10 10 10));
                     (INDEX_FILE, File Example.old_index)]);
          ("docs", Dir Example.notes)],
     Ok ()).
Proof. vm_compute. reflexivity. Qed.

(** In the return-code mode of GDAL the guard of line 72 skips a file that
    does not open: scenario B gives one record, with id 0. *)
Lemma scenario_B_return_codes :
  create_index gdal.initial Example.B =
    (Example.B ++ [(INDEX_FILE, File (text_file (index_text
       [["0"; "good.tif"; "1000"; "0.0"; "0.0"; "10.0"; "10.0"; "4326";
         "POLYGON ((0.0 0.0, 10.0 0.0, 10.0 10.0, 0.0 10.0, 0.0 0.0))"]])))],
     Ok ()).
Proof. vm_compute. reflexivity. Qed.

(** C1. The module enables GDAL exceptions when it is imported, so
    [gdal.Open] raises on a file it cannot open and the guard of line 72
    never sees [None].  On scenario B [create_index] ends with a
    [RuntimeError] at the unopenable file: the index holds the header alone
    when that file is listed first, and the record of the raster when it is
    listed last; a tree walk that reaches the directory ends there. *)
Theorem create_index_unopenable_raises :
  create_index imported Example.B =
    (Example.B ++ [(INDEX_FILE, File (text_file (index_text [])))],
     Raise RuntimeError)
  /\ create_index imported Example.B' =
       (Example.B' ++ [(INDEX_FILE, File (text_file (index_text
          [["0"; "good.tif"; "1000"; "0.0"; "0.0"; "10.0"; "10.0"; "4326";
            "POLYGON ((0.0 0.0, 10.0 0.0, 10.0 10.0, 0.0 10.0, 0.0 0.0))"]])))],
        Raise RuntimeError)
  /\ index_directories_recursively imported
       (Dir [("B", Dir Example.B); ("A", Dir Example.A)]) =
       (Dir [("B", Dir (Example.B ++ [(INDEX_FILE, File (text_file (index_text [])))]));
             ("A", Dir Example.A)],
        Raise RuntimeError).
Proof. vm_compute. auto. Qed.

(** C2 fails on a raster without georeferencing, whose pixel height is
    [1]: its record enters the index with [y1 = 10.0] above
    [y2 = 0.0]. *)
Lemma positive_pixel_height_box_inverted :
  index_files imported 0 Example.S =
    ([["0"; "s.tif"; "1000"; "0.0"; "10.0"; "10.0"; "0.0"; "Unknown";
       "POLYGON ((0.0 10.0, 10.0 10.0, 10.0 0.0, 0.0 0.0, 0.0 10.0))"]], Ok ())
  /\ let '(min_x, min_y, max_x, max_y) := bounding_box (Example.ungeoreferenced 10 10) in
     ~ (min_y <= max_y)%Q.
Proof. split; [vm_compute; reflexivity | by vm_compute]. Qed.

(** The rounding of the examples keeps the order, and their numbers are
    floats. *)
Lemma integral_floats_monotone : monotone_rounding.
Proof. intros x y Hxy. exact Hxy. Qed.

Lemma integral_floats_float (x : Q) : is_float x.
Proof. unfold is_float. reflexivity. Qed.

(** A north-up raster with unit pixels has an ordered box. *)
Lemma bounding_box_order_witness :
  let '(min_x, min_y, max_x, max_y) := bounding_box (Example.north_up 0 10 10 10) in
  (min_x <= max_x)%Q /\ (min_y <= max_y)%Q.
Proof.
  destruct (bounding_box_order (Example.north_up 0 10 10 10)
              integral_floats_monotone (integral_floats_float 0)
              (conj (integral_floats_float 0) (integral_floats_float 10)))
    as (Hx & _ & Hy & _).
  split; [apply Hx | apply Hy]; by vm_compute.
Defined.

(** Two boxes that share an edge, and two that share a corner. *)
Lemma mbr_overlap_closed_intervals_witness :
  mbr_overlap (0, 10, 0, 10)%Q (10, 20, 0, 10)%Q = true
  /\ mbr_overlap (0, 10, 0, 10)%Q (10, 20, 10, 20)%Q = true.
Proof.
  split.
  - assert (Ha : ordered (0, 10, 0, 10)%Q) by (split; by vm_compute).
    assert (Hb : ordered (10, 20, 0, 10)%Q) by (split; by vm_compute).
    destruct (mbr_overlap_closed_intervals _ _ Ha Hb) as (_ & Hedge & _).
    apply Hedge; by vm_compute.
  - assert (Ha : ordered (0, 10, 0, 10)%Q) by (split; by vm_compute).
    assert (Hb : ordered (10, 20, 10, 20)%Q) by (split; by vm_compute).
    destruct (mbr_overlap_closed_intervals _ _ Ha Hb) as (_ & _ & Hcorner).
    apply Hcorner; by vm_compute.
Defined.

(** What [csv.DictReader] yields for the index of scenario A. *)
Lemma scenario_A_rows :
  (csv.DictReader (readlines Example.index_A)).1
  = map (csv.row_dict header) Example.rows_A.
Proof. vm_compute. reflexivity. Qed.

Lemma scenario_A_read_to_end : read_to_end Example.index_A.
Proof. vm_compute. reflexivity. Qed.

(** *** A field larger than the limit of the reader *)

Lemma digits_plain (n : nat) : csv.any_special (Example.digits n) = false.
Proof. induction n as [| n IH]; [done |]. exact IH. Qed.

Lemma digits_no_cr (n : nat) : no_cr (Example.digits n) = true.
Proof. induction n as [| n IH]; [done |]. exact IH. Qed.

Lemma digits_length (n : nat) : String.length (Example.digits n) = n.
Proof.
  induction n as [| n IH]; [done |].
  change (S (String.length (Example.digits n)) = S n). by rewrite IH.
Qed.

Lemma oversized_length :
  Z.of_nat (String.length Example.oversized) = csv.field_limit + 1.
Proof.
  unfold Example.oversized. rewrite digits_length. apply Z2Nat.id.
  pose proof field_limit_pos. lia.
Qed.

Lemma index_with_srid_lookup (srid : string) :
  fs.lookup INDEX_FILE (Example.index_with_srid srid)
  = Some (File (text_file (index_text [Example.row_with_srid srid]))).
Proof. reflexivity. Qed.

(** The reader stops in the first record of an index whose SRID is larger
    than the limit. *)
Lemma index_with_srid_over_limit (srid : string) :
  no_cr srid = true -> csv.any_special srid = false ->
  csv.field_limit < Z.of_nat (String.length srid) ->
  csv.DictReader (readlines (text_file (index_text [Example.row_with_srid srid])))
  = ([], Some csv_Error).
Proof.
  intros Hcr Hplain Hover.
  apply (index_text_over_limit []
           ["0"; "r1.tif"; "1000"; "0.0"; "0.0"; "10.0"; "10.0"] srid
           ["POLYGON ((0.0 0.0, 10.0 0.0, 10.0 10.0, 0.0 10.0, 0.0 0.0))"] []);
    try done.
  - cbn [app]. repeat constructor; done.
  - by repeat constructor.
Qed.

Lemma point_5_5_parses :
  ogr.CreateGeometryFromJson (Example.geojson_point "5" "5")
  = ogr.Geometry_ (5, 5, 5, 5)%Q.
Proof. vm_compute. reflexivity. Qed.

Lemma oversized_srid_query :
  query_index (Example.index_with_srid Example.oversized)
    (Example.geojson_point "5" "5")
  = Raise csv_Error.
Proof.
  apply (query_index_no_row _ _ _ _ (index_with_srid_lookup Example.oversized)).
  - rewrite point_5_5_parses. discriminate.
  - apply index_with_srid_over_limit.
    + apply digits_no_cr.
    + apply digits_plain.
    + rewrite oversized_length. lia.
Qed.

Lemma short_srid_query :
  query_index (Example.index_with_srid "4326") (Example.geojson_point "5" "5")
  = Ok [Str "r1.tif"].
Proof. vm_compute. reflexivity. Qed.

(** C4 fails on an index with a field larger than the limit of the reader.
    The one record of the index has a footprint that the engine reads and
    that the query point lies in, and an SRID of one character more than a
    field takes: the query raises [csv.Error], where the same record with the
    SRID [4326] is returned. *)
Lemma query_index_field_over_limit_raises :
  Z.of_nat (String.length Example.oversized) = csv.field_limit + 1
  /\ ogr.CreateGeometryFromWkt
       "POLYGON ((0.0 0.0, 10.0 0.0, 10.0 10.0, 0.0 10.0, 0.0 0.0))"
     = ogr.Geometry_ (0, 10, 0, 10)%Q
  /\ ogr.Intersects (5, 5, 5, 5)%Q (0, 10, 0, 10)%Q = true
  /\ query_index (Example.index_with_srid Example.oversized)
       (Example.geojson_point "5" "5")
     = Raise csv_Error.
Proof.
  split; [exact oversized_length |].
  split; [vm_compute; reflexivity |].
  split; [vm_compute; reflexivity | exact oversized_srid_query].
Qed.

(** C10 fails on two indexes that differ in the SRID of their one record
    only, when one SRID is larger than the limit of the reader: the first
    query returns the record, the second raises [csv.Error]. *)
Lemma query_index_srid_over_limit_differs :
  Example.row_with_srid "4326" !! 1%nat
    = Example.row_with_srid Example.oversized !! 1%nat
  /\ Example.row_with_srid "4326" !! 8%nat
      = Example.row_with_srid Example.oversized !! 8%nat
  /\ query_index (Example.index_with_srid "4326") (Example.geojson_point "5" "5")
     = Ok [Str "r1.tif"]
  /\ query_index (Example.index_with_srid Example.oversized)
       (Example.geojson_point "5" "5")
     = Raise csv_Error.
Proof.
  split; [reflexivity |]. split; [reflexivity |].
  split; [exact short_srid_query | exact oversized_srid_query].
Qed.

(** Scenario A, queried at [(5, 5)]. *)
Lemma query_index_exact_witness :
  query_index (create_index imported Example.A).1 (Example.geojson_point "5" "5")
  = Ok [Str "r1.tif"].
Proof.
  apply (query_index_exact (engine := Example.boxes)
           (create_index imported Example.A).1 (Example.geojson_point "5" "5")
           Example.index_A (5, 5, 5, 5)%Q
           [("r1.tif", (0, 10, 0, 10)%Q); ("r2.tif", (20, 30, 20, 30)%Q)]).
  - vm_compute. reflexivity.
  - exact scenario_A_read_to_end.
  - vm_compute. reflexivity.
  - rewrite scenario_A_rows. repeat constructor.
    + exists "POLYGON ((0.0 0.0, 10.0 0.0, 10.0 10.0, 0.0 10.0, 0.0 0.0))".
      split; vm_compute; reflexivity.
    + exists "POLYGON ((20.0 20.0, 30.0 20.0, 30.0 30.0, 20.0 30.0, 20.0 20.0))".
      split; vm_compute; reflexivity.
Defined.

(** C5 fails on the empty JSON object, which is no geometry, when the index
    has no record, as the one that [create_index] leaves in scenario B: the
    parser returns [None] and [query_index] returns the empty list. *)
Lemma query_index_unparsed_geometry_returns :
  ogr.CreateGeometryFromJson "{}" = ogr.Null
  /\ query_index (create_index imported Example.B).1 "{}" = Ok [].
Proof. vm_compute. auto. Qed.

(** A directory without an index, text that is no JSON, and the empty JSON
    object against the indexes of scenarios A and B. *)
Lemma query_index_failures_witness :
  query_index Example.notes (Example.geojson_point "5" "5") = Raise FileNotFoundError
  /\ query_index Example.notes "POINT" = Raise RuntimeError
  /\ (exists e, query_index (create_index imported Example.A).1 "{}" = Raise e)
  /\ query_index (create_index imported Example.B).1 "{}" = Ok [].
Proof.
  split; [| split; [| split]].
  - destruct (query_index_failures Example.notes (Example.geojson_point "5" "5"))
      as (H & _).
    assert (Hnone : fs.lookup INDEX_FILE Example.notes = None)
      by (vm_compute; reflexivity).
    exact (H Hnone).
  - destruct (query_index_failures Example.notes "POINT") as (_ & H & _).
    apply H. vm_compute. reflexivity.
  - destruct (query_index_failures (create_index imported Example.A).1 "{}")
      as (_ & _ & H & _).
    eapply (H Example.index_A).
    + vm_compute. reflexivity.
    + vm_compute. reflexivity.
    + rewrite scenario_A_rows. reflexivity.
  - destruct (query_index_failures (create_index imported Example.B).1 "{}")
      as (_ & _ & _ & H).
    rewrite (H (text_file (index_text []))) by (vm_compute; reflexivity).
    vm_compute. reflexivity.
Defined.

(** The footprints of scenario A. *)
Lemma create_index_footprint_witness :
  exists rows : list (list string),
    fs.lookup INDEX_FILE (Example.A ++ [(INDEX_FILE, File Example.index_A)])
      = Some (File (text_file (index_text rows)))
    /\ Forall footprint_row rows
    /\ forall box : Q * Q * Q * Q,
         length (corners box) = 5%nat /\ head (corners box) = last (corners box).
Proof.
  apply (create_index_footprint imported Example.A
           (Example.A ++ [(INDEX_FILE, File Example.index_A)]) (Ok ())).
  - exact scenario_A_index.
  - discriminate.
Defined.

(** Scenario X/Y walked twice. *)
Lemma index_directories_recursively_idempotent_witness :
  let once := (index_directories_recursively imported Example.tree).1 in
  (exists d' : directory,
     subdir ["Y"] once = Some d'
     /\ fs.lookup INDEX_FILE d' = Some (File Example.old_index))
  /\ (exists d' : directory,
        subdir ["X"] (index_directories_recursively imported once).1 = Some d'
        /\ fs.lookup INDEX_FILE d' = Some (File Example.index_A))
  /\ index_directories_recursively imported once = (once, Ok ()).
Proof.
  destruct (index_directories_recursively_idempotent imported Example.tree)
    as (Hfirst & Hsecond & Hsame).
  split; [| split].
  - apply (Hfirst ["Y"] [("r.tif", Example.tif (Example.north_up 0 10 10 10));
                         (INDEX_FILE, File Example.old_index)]);
      vm_compute; reflexivity.
  - apply (Hsecond ["X"] (Example.A ++ [(INDEX_FILE, File Example.index_A)]));
      vm_compute; reflexivity.
  - apply Hsame. vm_compute. reflexivity.
Defined.

(** The directory [docs] of scenario X/Y. *)
Lemma index_directories_recursively_no_empty_index_witness :
  exists d' : directory,
    subdir ["docs"] (index_directories_recursively imported Example.tree).1 = Some d'
    /\ fs.lookup INDEX_FILE d' = None.
Proof.
  apply (index_directories_recursively_no_empty_index imported Example.tree
           ["docs"] Example.notes); vm_compute; reflexivity.
Defined.

(** C9. The index is written with [newline=''] and read without it, so a
    carriage return inside a quoted field is read back as a line feed: the
    raster of [C] is written under its name and read back, and reported by a
    query, under another. *)
Theorem index_round_trip_carriage_return :
  create_index imported Example.C =
    (Example.C ++ [(INDEX_FILE, File Example.index_C)], Ok ())
  /\ (csv.DictReader (readlines Example.index_C)).1 =
       [csv.row_dict header
          ["0"; Example.lf_name; "1000"; "0.0"; "0.0"; "10.0"; "10.0"; "4326";
           "POLYGON ((0.0 0.0, 10.0 0.0, 10.0 10.0, 0.0 10.0, 0.0 0.0))"]]
  /\ Example.lf_name <> Example.cr_name
  /\ query_index (Example.C ++ [(INDEX_FILE, File Example.index_C)])
       (Example.geojson_point "5" "5")
     = Ok [Str Example.lf_name].
Proof.
  split; [vm_compute; reflexivity |].
  split; [vm_compute; reflexivity |].
  split; [discriminate | vm_compute; reflexivity].
Qed.

(** What [csv.DictReader] yields for the index with two columns. *)
Lemma two_columns_rows :
  (csv.DictReader (readlines Example.two_columns)).1
  = map (fun row => csv.row_dict ["FileName"; "Geometry4326"] [row.1; row.2])
      [("r1.tif", "POLYGON ((0.0 0.0, 10.0 0.0, 10.0 10.0, 0.0 10.0, 0.0 0.0))");
       ("r2.tif", "POLYGON ((20.0 20.0, 30.0 20.0, 30.0 30.0, 20.0 30.0, 20.0 20.0))")].
Proof. vm_compute. reflexivity. Qed.

Lemma two_columns_read_to_end : read_to_end Example.two_columns.
Proof. vm_compute. reflexivity. Qed.

(** The index of scenario A and the index with two columns answer alike. *)
Lemma query_index_two_columns_witness :
  query_index (Example.A ++ [(INDEX_FILE, File Example.index_A)])
    (Example.geojson_point "25" "25")
  = query_index [(INDEX_FILE, File Example.two_columns)]
      (Example.geojson_point "25" "25").
Proof.
  apply (query_index_two_columns
           (Example.A ++ [(INDEX_FILE, File Example.index_A)])
           [(INDEX_FILE, File Example.two_columns)]
           Example.index_A Example.two_columns).
  - vm_compute. reflexivity.
  - vm_compute. reflexivity.
  - exact (eq_trans scenario_A_read_to_end (eq_sym two_columns_read_to_end)).
  - rewrite scenario_A_rows, two_columns_rows.
    repeat constructor; vm_compute; reflexivity.
Defined.


(** ** Further scenarios *)

(** The runtime and the resolver of [Example] put no carriage return into
    an index. *)
Lemma integral_float_str_no_cr (x : Q) : no_cr (float_str x) = true.
Proof.
  change (no_cr (str_int (Qnum x / Zpos (Qden x)) +:+ ".0") = true).
  by rewrite no_cr_app, no_cr_str_int.
Qed.

Lemma wgs84_no_cr (wkt code : string) :
  osr.GetAttrValue_AUTHORITY_1 (osr.from_wkt wkt) = Some code -> no_cr code = true.
Proof. by intros [= <-]. Qed.

Lemma scenario_A_names : listdir Example.A = ["r1.tif"; "r2.tif"].
Proof. vm_compute. reflexivity. Qed.

Lemma scenario_A_written : written imported Example.A = Example.rows_A.
Proof. vm_compute. reflexivity. Qed.

Lemma scenario_A_fits :
  Forall (Forall (fun f => fits f = true)) (written imported Example.A).
Proof. rewrite scenario_A_written. by repeat constructor. Qed.

Lemma scenario_A_no_index : fs.lookup INDEX_FILE Example.A = None.
Proof. vm_compute. reflexivity. Qed.

Lemma scenario_A_all_open : Forall (fun entry => ~ unopenable entry) Example.A.
Proof. repeat constructor; intros [_ Hraster]; exact Hraster. Qed.

(** The raster of scenario A has the code of its authority. *)
Lemma get_epsg_code_authority_witness :
  get_epsg_code (Example.north_up 0 10 10 10) = "4326".
Proof.
  destruct (get_epsg_code_authority (resolver := Example.wgs84)
              (Example.north_up 0 10 10 10) "4326") as [_ [_ Hcode]];
    [discriminate |].
  apply Hcode. repeat split; discriminate.
Defined.

(** The boxes [0,0,10,10] and [5,5,15,15] share a point. *)
Lemma mbr_overlap_common_point_witness :
  exists x y : Q,
    inside (0, 10, 0, 10)%Q x y /\ inside (5, 15, 5, 15)%Q x y.
Proof.
  assert (Ha : ordered (0, 10, 0, 10)%Q) by (split; by vm_compute).
  assert (Hb : ordered (5, 15, 5, 15)%Q) by (split; by vm_compute).
  destruct (mbr_overlap_common_point (0, 10, 0, 10)%Q (5, 15, 5, 15)%Q Ha Hb)
    as [Hpoint _].
  apply Hpoint. vm_compute. reflexivity.
Defined.

(** The ids of scenario A. *)
Lemma create_index_ids_witness :
  exists rows : list (list string),
    fs.lookup INDEX_FILE (Example.A ++ [(INDEX_FILE, File Example.index_A)])
      = Some (File (text_file (index_text rows)))
    /\ forall (i : nat) (row : list string),
         rows !! i = Some row -> row !! 0%nat = Some (str_int (Z.of_nat i)).
Proof.
  apply (create_index_ids imported Example.A
           (Example.A ++ [(INDEX_FILE, File Example.index_A)]) (Ok ())).
  - exact scenario_A_index.
  - discriminate.
Defined.

(** The first raster of scenario A after indexing. *)
Lemma create_index_other_entries_witness :
  fs.lookup "r1.tif" (create_index imported Example.A).1
  = fs.lookup "r1.tif" Example.A.
Proof.
  apply (create_index_other_entries imported Example.A "r1.tif"). discriminate.
Defined.

(** Scenario A holds two rasters and nothing else. *)
Lemma create_index_complete_witness :
  create_index imported Example.A
  = (put INDEX_FILE
       (File (text_file (index_text (numbered 0 (rasters Example.A))))) Example.A,
     Ok ()).
Proof.
  apply (create_index_complete imported Example.A scenario_A_all_open).
  intros sub. rewrite scenario_A_no_index. discriminate.
Defined.

(** Scenario B lists a file that GDAL cannot open. *)
Lemma create_index_never_skips_witness :
  (create_index imported Example.B).2 = Raise RuntimeError.
Proof.
  apply (create_index_never_skips Example.B).
  - apply Exists_cons_hd. split; [vm_compute; reflexivity | exact I].
  - intros sub Hsub. vm_compute in Hsub. discriminate.
Defined.

(** The index of scenario A, read back. *)
Lemma create_index_read_back_witness :
  exists (index_file : file) (rows : list (list string)),
    fs.lookup INDEX_FILE (Example.A ++ [(INDEX_FILE, File Example.index_A)])
      = Some (File index_file)
    /\ index_file = text_file (index_text rows)
    /\ Forall (fun row => length row = 9%nat) rows
    /\ csv.DictReader (readlines index_file)
       = (map (fun row => list_to_map (zip header (Str <$> row))) rows, None).
Proof.
  apply (create_index_read_back integral_float_str_no_cr wgs84_no_cr
           imported Example.A
           (Example.A ++ [(INDEX_FILE, File Example.index_A)]) (Ok ())).
  - rewrite scenario_A_names. by repeat constructor.
  - exact scenario_A_fits.
  - exact scenario_A_index.
  - discriminate.
Defined.

(** Scenario A, indexed and queried at [(25, 25)]. *)
Lemma create_index_then_query_witness :
  query_index (Example.A ++ [(INDEX_FILE, File Example.index_A)])
    (Example.geojson_point "25" "25")
  = Ok (matching (engine := Example.boxes) (25, 25, 25, 25)%Q
          [("r1.tif", (0, 10, 0, 10)%Q); ("r2.tif", (20, 30, 20, 30)%Q)]).
Proof.
  apply (create_index_then_query (engine := Example.boxes)
           integral_float_str_no_cr wgs84_no_cr
           imported Example.A
           (Example.A ++ [(INDEX_FILE, File Example.index_A)]) (Ok ())
           (Example.geojson_point "25" "25") (25, 25, 25, 25)%Q
           [("r1.tif", (0, 10, 0, 10)%Q); ("r2.tif", (20, 30, 20, 30)%Q)]).
  - rewrite scenario_A_names. by repeat constructor.
  - exact scenario_A_fits.
  - exact scenario_A_index.
  - discriminate.
  - vm_compute. reflexivity.
  - rewrite scenario_A_written. repeat constructor.
    + exists "POLYGON ((0.0 0.0, 10.0 0.0, 10.0 10.0, 0.0 10.0, 0.0 0.0))".
      split; vm_compute; reflexivity.
    + exists "POLYGON ((20.0 20.0, 30.0 20.0, 30.0 30.0, 20.0 30.0, 20.0 20.0))".
      split; vm_compute; reflexivity.
Defined.

Lemma scenario_A_indexed :
  fs.lookup INDEX_FILE (Example.A ++ [(INDEX_FILE, File Example.index_A)])
  = Some (File Example.index_A).
Proof. vm_compute. reflexivity. Qed.

Lemma scenario_A_query_5_5 :
  query_index (Example.A ++ [(INDEX_FILE, File Example.index_A)])
    (Example.geojson_point "5" "5")
  = Ok [Str "r1.tif"].
Proof. vm_compute. reflexivity. Qed.

(** The answer of scenario A at [(5, 5)] comes from a row of the index. *)
Lemma query_index_names_from_index_witness :
  exists hits : list (gmap string Py.value),
    sublist hits (csv.DictReader (readlines Example.index_A)).1
    /\ Forall2 (fun row name => row !! "FileName" = Some name) hits [Str "r1.tif"].
Proof.
  exact (query_index_names_from_index (engine := Example.boxes)
           (Example.A ++ [(INDEX_FILE, File Example.index_A)])
           (Example.geojson_point "5" "5") Example.index_A [Str "r1.tif"]
           scenario_A_indexed scenario_A_query_5_5).
Defined.

(** Both rows of scenario A were read to answer at [(5, 5)]. *)
Lemma query_index_reads_every_row_witness :
  Forall (fun row => exists (wkt : string) (g : ogr.Geometry),
            row !! "Geometry4326" = Some (Str wkt)
            /\ ogr.CreateGeometryFromWkt wkt = ogr.Geometry_ g)
    (csv.DictReader (readlines Example.index_A)).1
  /\ ((csv.DictReader (readlines Example.index_A)).1 <> [] ->
      exists q, ogr.CreateGeometryFromJson (Example.geojson_point "5" "5")
                = ogr.Geometry_ q).
Proof.
  exact (query_index_reads_every_row (engine := Example.boxes)
           (Example.A ++ [(INDEX_FILE, File Example.index_A)])
           (Example.geojson_point "5" "5") Example.index_A [Str "r1.tif"]
           scenario_A_indexed scenario_A_query_5_5).
Defined.

Lemma scenario_tree_X : subdir ["X"] Example.tree = Some Example.A.
Proof. vm_compute. reflexivity. Qed.

Lemma scenario_A_r1 :
  fs.lookup "r1.tif" Example.A
  = Some (File {| st_size := 1000; text := EmptyString;
                  raster := Some (Example.north_up 0 10 10 10) |}).
Proof. vm_compute. reflexivity. Qed.

(** The first raster of [X] in scenario X/Y, after the walk. *)
Lemma index_directories_recursively_keeps_files_witness :
  exists d' : directory,
    subdir ["X"] (index_directories_recursively imported Example.tree).1 = Some d'
    /\ fs.lookup "r1.tif" d'
       = Some (File {| st_size := 1000; text := EmptyString;
                       raster := Some (Example.north_up 0 10 10 10) |}).
Proof.
  exact (index_directories_recursively_keeps_files imported Example.tree
           ["X"] Example.A "r1.tif"
           {| st_size := 1000; text := EmptyString;
              raster := Some (Example.north_up 0 10 10 10) |}
           scenario_tree_X scenario_A_r1).
Defined.

Lemma scenario_tree_X_walked :
  subdir ["X"]
    (Dir [("X", Dir (create_index imported Example.A).1);
          ("Y", Dir [("r.tif", Example.tif (Example.north_up 0 10 10 10));
                     (INDEX_FILE, File Example.old_index)]);
          ("docs", Dir Example.notes)])
  = Some (Example.A ++ [(INDEX_FILE, File Example.index_A)]).
Proof. vm_compute. reflexivity. Qed.

Lemma scenario_A_tif_files :
  tif_files (Example.A ++ [(INDEX_FILE, File Example.index_A)]) <> [].
Proof. vm_compute. discriminate. Qed.

(** The directory [X] of scenario X/Y holds an index after the walk. *)
Lemma index_directories_recursively_indexes_all_witness :
  exists_ INDEX_FILE (Example.A ++ [(INDEX_FILE, File Example.index_A)]) = true.
Proof.
  exact (index_directories_recursively_indexes_all imported Example.tree
           (Dir [("X", Dir (create_index imported Example.A).1);
                 ("Y", Dir [("r.tif", Example.tif (Example.north_up 0 10 10 10));
                            (INDEX_FILE, File Example.old_index)]);
                 ("docs", Dir Example.notes)])
           ["X"] (Example.A ++ [(INDEX_FILE, File Example.index_A)])
           scenario_tree scenario_tree_X_walked scenario_A_tif_files).
Defined.

Lemma scenario_A_has_tif : tif_files Example.A <> [].
Proof. vm_compute. discriminate. Qed.

(** The index of [X] in scenario X/Y holds the two rasters of [X]. *)
Lemma index_directories_recursively_own_rasters_witness :
  exists d' : directory,
    subdir ["X"]
      (Dir [("X", Dir (create_index imported Example.A).1);
            ("Y", Dir [("r.tif", Example.tif (Example.north_up 0 10 10 10));
                       (INDEX_FILE, File Example.old_index)]);
            ("docs", Dir Example.notes)])
    = Some d'
    /\ fs.lookup INDEX_FILE d'
       = Some (File (text_file (index_text (numbered 0 (rasters Example.A))))).
Proof.
  exact (index_directories_recursively_own_rasters imported Example.tree
           (Dir [("X", Dir (create_index imported Example.A).1);
                 ("Y", Dir [("r.tif", Example.tif (Example.north_up 0 10 10 10));
                            (INDEX_FILE, File Example.old_index)]);
                 ("docs", Dir Example.notes)])
           ["X"] Example.A
           scenario_tree scenario_tree_X scenario_A_has_tif scenario_A_no_index).
Defined.

Lemma scenario_tree_all_open : all_open Example.tree.
Proof.
  apply all_open_Dir. split.
  - repeat constructor; intros [Htif _]; by vm_compute in Htif.
  - repeat constructor; intros [Htif Hraster];
      first [exact Hraster | by vm_compute in Htif].
Qed.

(** GDAL opens every candidate of scenario X/Y. *)
Lemma index_directories_recursively_all_open_witness :
  (index_directories_recursively imported Example.tree).2 = Ok ().
Proof.
  exact (index_directories_recursively_all_open imported Example.tree
           scenario_tree_all_open).
Defined.

(** An index with an SRID of one character more than the reader takes. *)
Lemma query_index_field_over_limit_witness :
  exists e : exn,
    query_index (Example.index_with_srid Example.oversized)
      (Example.geojson_point "25" "25")
    = Raise e.
Proof.
  apply (query_index_field_over_limit (engine := Example.boxes)
           (Example.index_with_srid Example.oversized)
           (Example.geojson_point "25" "25") []
           ["0"; "r1.tif"; "1000"; "0.0"; "0.0"; "10.0"; "10.0"]
           Example.oversized
           ["POLYGON ((0.0 0.0, 10.0 0.0, 10.0 10.0, 0.0 10.0, 0.0 0.0))"] []).
  - exact (index_with_srid_lookup Example.oversized).
  - cbn [app].
    repeat first [exact (digits_no_cr _) | reflexivity | constructor].
  - constructor.
  - constructor.
  - repeat first [reflexivity | constructor].
  - exact (digits_plain _).
  - rewrite oversized_length. lia.
Defined.
